(** * Workload management system (src/Main.py): model and verified properties

    The Python program keeps a queue of [Order] objects, a registry of
    [Staff] objects, a product catalog and a derived index from product type
    to the logged-in staff able to handle it.  This development embeds the
    program shallowly:

    - dataclasses are records, enums are inductive types;
    - Python [float] is IEEE binary64, carried as [spec_float];
    - insertion-ordered dictionaries are association lists;
    - [Order] objects are mutable and shared between the queue and the
      callers that received them, so they live in an object store and are
      named by references (indices into the store);
    - methods are computations in a monad with the system state, Python
      exceptions, and read access to the environment ([datetime.now()] and
      [uuid.uuid4()]). *)

From Stdlib Require Import ZArith String Ascii List Bool Lia SpecFloat.
From stdpp Require Import base option list strings sorting pretty.

Local Open Scope string_scope.
Local Open Scope list_scope.

(** ** Enumerations *)

Inductive OrderStatus := PLACED | WIP | COMPLETE.

Inductive ProductType := VEG_PIZZA | NV_PIZZA | SANDWICH | BURGER | DRINKS.

#[global] Instance OrderStatus_eq_dec : EqDecision OrderStatus.
Proof. solve_decision. Defined.

#[global] Instance ProductType_eq_dec : EqDecision ProductType.
Proof. solve_decision. Defined.

(** [pt.value] *)
Definition ProductType_value (pt : ProductType) : string :=
  match pt with
  | VEG_PIZZA => "Veg Pizza"
  | NV_PIZZA => "Non-Veg Pizza"
  | SANDWICH => "Sandwich"
  | BURGER => "Burger"
  | DRINKS => "Drinks"
  end.

(** Iteration order of [for pt in ProductType]: definition order. *)
Definition ProductType_members : list ProductType :=
  [VEG_PIZZA; NV_PIZZA; SANDWICH; BURGER; DRINKS].

(** ** Python values used by the program *)

(** [float]: IEEE 754 binary64. *)
Definition float := spec_float.
Definition float_prec : Z := 53.
Definition float_emax : Z := 1024.

(** [x == y] on floats. *)
Definition float_eqb (x y : float) : bool := SFeqb x y.

(** Conversion of an [int] operand to [float]: round to nearest even;
    [None] stands for OverflowError (int too large to convert to float). *)
Definition float_of_int (n : Z) : option float :=
  match binary_normalize float_prec float_emax n 0 false with
  | S754_infinity _ => None
  | f => Some f
  end.

(** [x * n] for a float [x] and an int [n]. *)
Definition float_mul_int (x : float) (n : Z) : option float :=
  SFmul float_prec float_emax x <$> float_of_int n.

(** A naive [datetime]. *)
Record datetime := mk_datetime {
  year : nat; month : nat; day : nat;
  hour : nat; minute : nat; second : nat; microsecond : nat
}.

#[global] Instance datetime_eq_dec : EqDecision datetime.
Proof. solve_decision. Defined.

Definition digit (n : nat) : ascii := ascii_of_nat (48 + n mod 10).

Definition two_digits (n : nat) : string :=
  String (digit (n / 10)) (String (digit n) EmptyString).

Definition four_digits (n : nat) : string :=
  String (digit (n / 1000)) (String (digit (n / 100)) (two_digits n)).

(** [t.strftime('%d%m%Y')]: zero-padded day and month, four-digit year
    (the clock returns years between 1000 and 9999). *)
Definition strftime_dmY (t : datetime) : string :=
  two_digits (day t) +:+ two_digits (month t) +:+ four_digits (year t).

(** [c.upper()] on one character. *)
Definition upper_ascii (c : ascii) : ascii :=
  let n := nat_of_ascii c in
  if (97 <=? n)%nat && (n <=? 122)%nat then ascii_of_nat (n - 32) else c.

Fixpoint upper (s : string) : string :=
  match s with
  | EmptyString => EmptyString
  | String c s' => String (upper_ascii c) (upper s')
  end.

(** [s[:n]] *)
Fixpoint prefix_slice (n : nat) (s : string) : string :=
  match n, s with
  | S n', String c s' => String c (prefix_slice n' s')
  | _, _ => EmptyString
  end.

(** ** Insertion-ordered dictionaries *)

Section Dict.
Context {K V : Type} `{EqDecision K}.

Definition dict := list (K * V).

(** [d.get(k)] *)
Fixpoint dict_get (k : K) (d : dict) : option V :=
  match d with
  | [] => None
  | (k', v) :: d' => if decide (k = k') then Some v else dict_get k d'
  end.

(** [k in d] *)
Definition dict_mem (k : K) (d : dict) : bool :=
  match dict_get k d with Some _ => true | None => false end.

(** [d[k] = f(d[k])] for a key already present: the entry keeps its place. *)
Fixpoint dict_alter (f : V -> V) (k : K) (d : dict) : dict :=
  match d with
  | [] => []
  | (k', v) :: d' =>
      if decide (k = k') then (k', f v) :: d' else (k', v) :: dict_alter f k d'
  end.

(** [d[k] = v]: overwrite in place, or append a new entry. *)
Fixpoint dict_set (k : K) (v : V) (d : dict) : dict :=
  match d with
  | [] => [(k, v)]
  | (k', v') :: d' =>
      if decide (k = k') then (k', v) :: d' else (k', v') :: dict_set k v d'
  end.

Definition dict_keys (d : dict) : list K := map fst d.
Definition dict_values (d : dict) : list V := map snd d.

End Dict.

Arguments dict : clear implicits.

(** ** Dataclasses *)

Module Product.
Record t := mk {
  code : string;
  description : string;
  price : float;
  product_type : ProductType
}.
End Product.

Module OrderItem.
Record t := mk {
  product_code : string;
  quantity : Z;
  toppings : list string;
  price : float
}.

(** The generated [__eq__]: field tuples compared component-wise. *)
Definition eqb (a b : t) : bool :=
  bool_decide (product_code a = product_code b)
  && bool_decide (quantity a = quantity b)
  && bool_decide (toppings a = toppings b)
  && float_eqb (price a) (price b).
End OrderItem.

(** [==] on two lists: same length and component-wise equal. *)
Fixpoint list_eqb {A} (eqb : A -> A -> bool) (l1 l2 : list A) : bool :=
  match l1, l2 with
  | [], [] => true
  | a :: l1', b :: l2' => eqb a b && list_eqb eqb l1' l2'
  | _, _ => false
  end.

Module Order.
Record t := mk {
  order_number : string;
  items : list OrderItem.t;
  status : OrderStatus;
  created_at : datetime;
  completed_at : option datetime
}.

Definition set_status (v : OrderStatus) (o : t) : t :=
  mk (order_number o) (items o) v (created_at o) (completed_at o).

Definition set_completed_at (v : option datetime) (o : t) : t :=
  mk (order_number o) (items o) (status o) (created_at o) v.

(** The generated [__eq__]. *)
Definition eqb (a b : t) : bool :=
  bool_decide (order_number a = order_number b)
  && list_eqb OrderItem.eqb (items a) (items b)
  && bool_decide (status a = status b)
  && bool_decide (created_at a = created_at b)
  && bool_decide (completed_at a = completed_at b).
End Order.

Module Staff.
Record t := mk {
  id : string;
  name : string;
  skills : list ProductType;
  logged_in : bool
}.

Definition set_logged_in (v : bool) (s : t) : t :=
  mk (id s) (name s) (skills s) v.

(** [can_handle_product] *)
Definition can_handle_product (self : t) (product_type : ProductType) : bool :=
  bool_decide (product_type ∈ skills self).
End Staff.

(** ** System state *)

(** A reference to an [Order] object: its index in the object store. *)
Abbreviation ref := nat (only parsing).

(** A reference to a [Staff] object: the key under which the registry holds
    it (each [Staff] object is stored under exactly one key). *)
Abbreviation staff_ref := string (only parsing).

(** The attributes of a [WorkloadManagementSystem] instance, the [Order]
    objects allocated so far, and what has been printed. *)
Record WMS := mk_WMS {
  objects : list Order.t;
  orders_queue : list ref;
  staff_members : dict string Staff.t;
  products : dict string Product.t;
  product_group_mapping : dict ProductType (list staff_ref);
  stdout : list string
}.

Definition set_objects (v : list Order.t) (s : WMS) : WMS :=
  mk_WMS v (orders_queue s) (staff_members s) (products s)
         (product_group_mapping s) (stdout s).

Definition set_orders_queue (v : list ref) (s : WMS) : WMS :=
  mk_WMS (objects s) v (staff_members s) (products s)
         (product_group_mapping s) (stdout s).

Definition set_staff_members (v : dict string Staff.t) (s : WMS) : WMS :=
  mk_WMS (objects s) (orders_queue s) v (products s)
         (product_group_mapping s) (stdout s).

Definition set_product_group_mapping
    (v : dict ProductType (list staff_ref)) (s : WMS) : WMS :=
  mk_WMS (objects s) (orders_queue s) (staff_members s) (products s)
         v (stdout s).

Definition set_stdout (v : list string) (s : WMS) : WMS :=
  mk_WMS (objects s) (orders_queue s) (staff_members s) (products s)
         (product_group_mapping s) v.

(** ** Effects *)

Inductive exn :=
  | KeyError (key : string)
  | ValueError (msg : string)
  | OverflowError (msg : string)
  | BadReference (r : ref).
  (** [BadReference] is not a Python exception: it marks the use of a
      reference outside the object store, which no Python state contains. *)

Inductive result (A : Type) :=
  | Ok (a : A)
  | Raise (e : exn).
Arguments Ok {A} a.
Arguments Raise {A} e.

(** What the environment answers during one call of a public method.  Each
    field is the value of one call site that runs at most once per call. *)
Record env := mk_env {
  now_order_number : datetime;  (** [datetime.now()] in [place_order] *)
  uuid4_hex : string;           (** [uuid.uuid4().hex] in [place_order] *)
  now_created_at : datetime;    (** default factory of [Order.created_at] *)
  now_completed_at : datetime   (** [datetime.now()] in [update_status] *)
}.

Definition M (A : Type) : Type := env -> WMS -> result A * WMS.

#[global] Instance M_ret : MRet M := fun A a _ s => (Ok a, s).

#[global] Instance M_bind : MBind M := fun A B f m e s =>
  match m e s with
  | (Ok a, s') => f a e s'
  | (Raise x, s') => (Raise x, s')
  end.

Definition raise {A} (x : exn) : M A := fun _ s => (Raise x, s).
Definition gets {A} (f : WMS -> A) : M A := fun _ s => (Ok (f s), s).
Definition modify (f : WMS -> WMS) : M unit := fun _ s => (Ok tt, f s).
Definition ask {A} (f : env -> A) : M A := fun e s => (Ok (f e), s).

(** [print(line)] *)
Definition print (line : string) : M unit :=
  modify (fun s => set_stdout (stdout s ++ [line]) s).

(** Read the object behind a reference. *)
Definition deref (r : ref) : M Order.t := fun _ s =>
  match objects s !! r with
  | Some o => (Ok o, s)
  | None => (Raise (BadReference r), s)
  end.

(** Mutate the object behind a reference in place. *)
Definition mutate (r : ref) (f : Order.t -> Order.t) : M unit :=
  o ← deref r;
  modify (fun s => set_objects (<[r := f o]> (objects s)) s).

(** Allocate a new object and return its reference. *)
Definition alloc (o : Order.t) : M ref := fun _ s =>
  (Ok (length (objects s)), set_objects (objects s ++ [o]) s).

(** ** The methods *)

(** [Order.update_status], on the object behind [self]. *)
Definition update_status (self : ref) (new_status : OrderStatus) : M unit :=
  mutate self (Order.set_status new_status);;
  if decide (new_status = COMPLETE) then
    now ← ask now_completed_at;
    mutate self (Order.set_completed_at (Some now))
  else mret tt.

(** The dictionary comprehension [{pt: [] for pt in ProductType}]. *)
Definition empty_mapping : dict ProductType (list staff_ref) :=
  map (fun pt => (pt, [])) ProductType_members.

(** [for skill in staff.skills: mapping[skill].append(staff)] *)
Fixpoint append_staff (staff : staff_ref) (skills : list ProductType)
    (mapping : dict ProductType (list staff_ref))
    : dict ProductType (list staff_ref) :=
  match skills with
  | [] => mapping
  | skill :: skills' =>
      append_staff staff skills'
        (dict_alter (fun l => l ++ [staff]) skill mapping)
  end.

(** [for staff in self.staff_members.values(): if staff.logged_in: ...] *)
Fixpoint index_staff (members : dict string Staff.t)
    (mapping : dict ProductType (list staff_ref))
    : dict ProductType (list staff_ref) :=
  match members with
  | [] => mapping
  | (key, staff) :: members' =>
      index_staff members'
        (if Staff.logged_in staff
         then append_staff key (Staff.skills staff) mapping
         else mapping)
  end.

Definition rebuild_mapping (s : WMS) : WMS :=
  set_product_group_mapping (index_staff (staff_members s) empty_mapping) s.

Definition _update_product_group_mapping : M unit := modify rebuild_mapping.

Definition set_login (staff_id : string) (v : bool) : M bool :=
  members ← gets staff_members;
  if dict_mem staff_id members then
    modify (fun s =>
      set_staff_members
        (dict_alter (Staff.set_logged_in v) staff_id (staff_members s)) s);;
    _update_product_group_mapping;;
    mret true
  else mret false.

Definition staff_login (staff_id : string) : M bool := set_login staff_id true.

Definition staff_logout (staff_id : string) : M bool := set_login staff_id false.

(** One entry of the [items] argument of [place_order]: a Python dict whose
    keys may be missing. *)
Record item_request := mk_item_request {
  req_product_code : option string;
  req_quantity : option Z;
  req_toppings : option (list string)
}.

(** The loop of [place_order] that builds [order_items]. *)
Fixpoint collect_items (catalog : dict string Product.t)
    (items : list item_request) (order_items : list OrderItem.t)
    : result (list OrderItem.t) :=
  match items with
  | [] => Ok order_items
  | item :: items' =>
      match req_product_code item ≫= (fun c => pair c <$> dict_get c catalog) with
      | None => collect_items catalog items' order_items
      | Some (product_code, product) =>
          let quantity := default 1%Z (req_quantity item) in
          match float_mul_int (Product.price product) quantity with
          | None => Raise (OverflowError "int too large to convert to float")
          | Some price =>
              collect_items catalog items'
                (order_items ++
                 [OrderItem.mk product_code quantity
                    (default [] (req_toppings item)) price])
          end
      end
  end.

Definition lift {A} (r : result A) : M A := fun _ s => (r, s).

Definition place_order (items : list item_request) : M ref :=
  now ← ask now_order_number;
  hex ← ask uuid4_hex;
  let order_number := "ORD" +:+ strftime_dmY now +:+ upper (prefix_slice 3 hex) in
  catalog ← gets products;
  order_items ← lift (collect_items catalog items []);
  match order_items with
  | [] => raise (ValueError "No valid items in order")
  | _ =>
      created ← ask now_created_at;
      order ← alloc (Order.mk order_number order_items PLACED created None);
      modify (fun s => set_orders_queue (orders_queue s ++ [order]) s);;
      mret order
  end.

(** [mapping.get(C, [])] *)
Definition mapping_get (C : ProductType)
    (mapping : dict ProductType (list staff_ref)) : list staff_ref :=
  default [] (dict_get C mapping).

(** The inner loop of [process_orders]: does every item have staff? *)
Fixpoint assign_items (items : list OrderItem.t) : M bool :=
  match items with
  | [] => mret true
  | item :: items' =>
      catalog ← gets products;
      match dict_get (OrderItem.product_code item) catalog with
      | None => raise (KeyError (OrderItem.product_code item))
      | Some product =>
          mapping ← gets product_group_mapping;
          match mapping_get (Product.product_type product) mapping with
          | [] =>
              print ("No available staff for "
                     +:+ ProductType_value (Product.product_type product));;
              mret false
          | _ :: _ => assign_items items'
          end
      end
  end.

(** [x == y] on two [Order] references, as [list.remove] tests it: the same
    object, or equal by [__eq__]. *)
Definition same_or_equal (store : list Order.t) (x y : ref) : bool :=
  bool_decide (x = y)
  || match store !! x, store !! y with
     | Some a, Some b => Order.eqb a b
     | _, _ => false
     end.

(** [l.remove(x)]: drop the first element that passes the test; [None] is
    ValueError. *)
Fixpoint list_remove (test : ref -> bool) (l : list ref) : option (list ref) :=
  match l with
  | [] => None
  | y :: l' => if test y then Some l' else cons y <$> list_remove test l'
  end.

(** [self.orders_queue.remove(order)] *)
Definition queue_remove (order : ref) : M unit :=
  store ← gets objects;
  queue ← gets orders_queue;
  match list_remove (fun y => same_or_equal store y order) queue with
  | None => raise (ValueError "list.remove(x): x not in list")
  | Some queue' => modify (set_orders_queue queue')
  end.

(** The outer loop of [process_orders], over the copy of the queue. *)
Fixpoint process_loop (copy : list ref) (processed_orders : list ref)
    : M (list ref) :=
  match copy with
  | [] => mret processed_orders
  | order :: copy' =>
      o ← deref order;
      if decide (Order.status o ≠ PLACED) then
        process_loop copy' processed_orders
      else
        all_items_assigned ← assign_items (Order.items o);
        if all_items_assigned : bool then
          update_status order WIP;;
          queue_remove order;;
          process_loop copy' (processed_orders ++ [order])
        else process_loop copy' processed_orders
  end.

Definition process_orders : M (list ref) :=
  copy ← gets orders_queue;
  process_loop copy [].

(** [next((o for o in self.orders_queue if o.order_number == n), None)] *)
Fixpoint find_order (store : list Order.t) (order_number : string)
    (queue : list ref) : option ref :=
  match queue with
  | [] => None
  | r :: queue' =>
      match store !! r with
      | Some o =>
          if decide (Order.order_number o = order_number) then Some r
          else find_order store order_number queue'
      | None => find_order store order_number queue'
      end
  end.

Definition complete_order_item (order_number product_code : string) : M bool :=
  store ← gets objects;
  queue ← gets orders_queue;
  match find_order store order_number queue with
  | None => mret false
  | Some order => update_status order COMPLETE;; mret true
  end.

Definition get_available_products : M (list Product.t) :=
  catalog ← gets products;
  mapping ← gets product_group_mapping;
  mret (List.filter
          (fun product =>
             match dict_get (Product.product_type product) mapping with
             | Some (_ :: _) => true
             | _ => false
             end)
          (dict_values catalog)).

Definition get_orders_by_status (status : OrderStatus) : M (list ref) :=
  store ← gets objects;
  queue ← gets orders_queue;
  mret (List.filter
          (fun r =>
             match store !! r with
             | Some o => bool_decide (Order.status o = status)
             | None => false
             end)
          queue).

(** ** Construction *)

(** A positive finite float literal, as mantissa and binary exponent. *)
Definition float_literal (m : positive) (e : Z) : float := S754_finite false m e.

Definition products_data : list (string * string * float * ProductType) :=
  [ ("P001", "Margherita Pizza", float_literal 5060920081257595 (-49), VEG_PIZZA)  (* 8.99 *)
  ; ("P002", "Pepperoni Pizza", float_literal 6186819988100219 (-49), NV_PIZZA)    (* 10.99 *)
  ; ("S001", "Veg Sandwich", float_literal 6744140441987318 (-50), SANDWICH)       (* 5.99 *)
  ; ("B001", "Cheeseburger", float_literal 8995940255672566 (-50), BURGER)         (* 7.99 *)
  ; ("D001", "Soft Drink", float_literal 8962163258467287 (-52), DRINKS)           (* 1.99 *)
  ].

Definition staff_data : list (string * string * list ProductType) :=
  [ ("S001", "Chandler", [VEG_PIZZA; BURGER])
  ; ("S002", "Joey", [VEG_PIZZA; NV_PIZZA; SANDWICH; BURGER])
  ; ("S003", "Rachel", [NV_PIZZA])
  ; ("S004", "Monica", [SANDWICH])
  ; ("S005", "Ross", [DRINKS])
  ].

Definition _initialize_sample_data (s : WMS) : WMS :=
  let s1 :=
    fold_left
      (fun s '(code, desc, price, p_type) =>
         mk_WMS (objects s) (orders_queue s) (staff_members s)
                (dict_set code (Product.mk code desc price p_type) (products s))
                (product_group_mapping s) (stdout s))
      products_data s in
  let s2 :=
    fold_left
      (fun s '(id, name, skills) =>
         set_staff_members
           (dict_set id (Staff.mk id name skills false) (staff_members s)) s)
      staff_data s1 in
  rebuild_mapping s2.

(** [WorkloadManagementSystem()] *)
Definition WorkloadManagementSystem : WMS :=
  _initialize_sample_data (mk_WMS [] [] [] [] [] []).

(** ** Calls and reachable states *)

Inductive call :=
  | StaffLogin (staff_id : string)
  | StaffLogout (staff_id : string)
  | PlaceOrder (items : list item_request)
  | ProcessOrders
  | CompleteOrderItem (order_number product_code : string)
  | GetAvailableProducts
  | GetOrdersByStatus (status : OrderStatus).

(** The state in which a call leaves the system, whether it returns or
    raises. *)
Definition exec (c : call) (e : env) (s : WMS) : WMS :=
  match c with
  | StaffLogin staff_id => snd (staff_login staff_id e s)
  | StaffLogout staff_id => snd (staff_logout staff_id e s)
  | PlaceOrder items => snd (place_order items e s)
  | ProcessOrders => snd (process_orders e s)
  | CompleteOrderItem n c => snd (complete_order_item n c e s)
  | GetAvailableProducts => snd (get_available_products e s)
  | GetOrdersByStatus st => snd (get_orders_by_status st e s)
  end.

Inductive reachable : WMS -> Prop :=
  | reachable_init : reachable WorkloadManagementSystem
  | reachable_exec c e s : reachable s -> reachable (exec c e s).

(** ** The script *)

Definition newline : string := String (ascii_of_nat 10) EmptyString.

(** [str(status)] of an enum member. *)
Definition OrderStatus_str (status : OrderStatus) : string :=
  match status with
  | PLACED => "OrderStatus.PLACED"
  | WIP => "OrderStatus.WIP"
  | COMPLETE => "OrderStatus.COMPLETE"
  end.

(** [for product in available: print(f"- {product.description}")] *)
Fixpoint print_products (available : list Product.t) : M unit :=
  match available with
  | [] => mret tt
  | product :: available' =>
      print ("- " +:+ Product.description product);;
      print_products available'
  end.

(** The body of [if __name__ == "__main__":], run on a new system.  Each
    environment call site runs at most once in it, so one [env] serves the
    whole run. *)
Definition main : M unit :=
  staff_login "S001";;
  staff_login "S004";;
  available ← get_available_products;
  print "Available products:";;
  print_products available;;
  order1 ← place_order
    [mk_item_request (Some "P001") (Some 2%Z) None;
     mk_item_request (Some "S001") (Some 1%Z) None];
  o ← deref order1;
  print (newline +:+ "Placed order " +:+ Order.order_number o +:+ " with "
         +:+ pretty (length (Order.items o)) +:+ " items");;
  processed ← process_orders;
  print (newline +:+ "Processed " +:+ pretty (length processed) +:+ " orders");;
  orders_wip ← get_orders_by_status WIP;
  print (newline +:+ "Orders in WIP status: " +:+ pretty (length orders_wip));;
  o ← deref order1;
  complete_order_item (Order.order_number o) "P001";;
  o ← deref order1;
  print (newline +:+ "Order " +:+ Order.order_number o +:+ " status: "
         +:+ OrderStatus_str (Order.status o)).

(** * Notions used to state the properties *)

(** [CapabilityIndex.availableFor(C)] of the specification. *)
Definition available_for (s : WMS) (C : ProductType) : list staff_ref :=
  mapping_get C (product_group_mapping s).

(** Every product type is a key of the mapping. *)
Definition total (mapping : dict ProductType (list staff_ref)) : Prop :=
  ∀ C, is_Some (dict_get C mapping).

(** Every item of the order names a product of the catalog. *)
Definition known_items (s : WMS) (o : Order.t) : Prop :=
  ∀ item, item ∈ Order.items o →
    is_Some (dict_get (OrderItem.product_code item) (products s)).

(** What every state reachable through the public methods satisfies. *)
Record wf (s : WMS) : Prop := mk_wf {
  wf_queue_nodup : NoDup (orders_queue s);
  wf_queue_bound : ∀ r, r ∈ orders_queue s → is_Some (objects s !! r);
  wf_queue_not_wip : ∀ r o,
    r ∈ orders_queue s → objects s !! r = Some o → Order.status o ≠ WIP;
  wf_known_items : ∀ r o, objects s !! r = Some o → known_items s o;
  wf_completed_at : ∀ r o, objects s !! r = Some o →
    (is_Some (Order.completed_at o) ↔ Order.status o = COMPLETE);
  wf_index :
    product_group_mapping s = index_staff (staff_members s) empty_mapping;
  wf_staff_keys : NoDup (dict_keys (staff_members s))
}.

(** The item's product type has at least one available staff member: the
    test that the inner loop of [process_orders] makes on each item. *)
Definition has_staff (catalog : dict string Product.t)
    (mapping : dict ProductType (list staff_ref)) (item : OrderItem.t) : bool :=
  match dict_get (OrderItem.product_code item) catalog with
  | Some product =>
      match mapping_get (Product.product_type product) mapping with
      | [] => false
      | _ :: _ => true
      end
  | None => false
  end.

(** The orders that a pass of [process_orders] moves to WIP: those that are
    PLACED and whose items all have staff. *)
Definition dispatchable (s : WMS) (r : ref) : bool :=
  match objects s !! r with
  | Some o =>
      bool_decide (Order.status o = PLACED)
      && forallb (has_staff (products s) (product_group_mapping s)) (Order.items o)
  | None => false
  end.

(** The state after a successful dispatch of the order behind [r]. *)
Definition dispatched (r : ref) (o : Order.t) (s : WMS) : WMS :=
  set_orders_queue
    (List.filter (fun y => negb (bool_decide (y = r))) (orders_queue s))
    (set_objects (<[r := Order.set_status WIP o]> (objects s)) s).

(** How a pass that dispatches the orders [D] relates the state before it
    and the state after it. *)
Record pass_result (s s' : WMS) (D : list ref) : Prop := mk_pass_result {
  pass_queue :
    orders_queue s'
    = List.filter (fun x => negb (bool_decide (x ∈ D))) (orders_queue s);
  pass_objects : ∀ x,
    objects s' !! x
    = if bool_decide (x ∈ D) then Order.set_status WIP <$> objects s !! x
      else objects s !! x;
  pass_staff : staff_members s' = staff_members s;
  pass_products : products s' = products s;
  pass_mapping : product_group_mapping s' = product_group_mapping s;
  pass_stdout : ∃ out, stdout s' = stdout s ++ out
}.

(** The product code that a request contributes to the order, if any. *)
Definition resolved_code (catalog : dict string Product.t)
    (item : item_request) : option string :=
  req_product_code item ≫= fun c => if dict_mem c catalog then Some c else None.

(** The order number that [place_order] composes. *)
Definition generated_order_number (e : env) : string :=
  "ORD" +:+ strftime_dmY (now_order_number e)
        +:+ upper (prefix_slice 3 (uuid4_hex e)).

(** The state after [place_order] has enqueued a new order with [items]. *)
Definition placed (e : env) (items : list OrderItem.t) (s : WMS) : WMS :=
  set_orders_queue (orders_queue s ++ [length (objects s)])
    (set_objects
       (objects s
        ++ [Order.mk (generated_order_number e) items PLACED
              (now_created_at e) None]) s).

(** The state after the order behind [r] has been completed. *)
Definition completed (e : env) (r : ref) (o : Order.t) (s : WMS) : WMS :=
  set_objects
    (<[r := Order.set_completed_at (Some (now_completed_at e))
              (Order.set_status COMPLETE o)]> (objects s)) s.

(** The claim as the specification words it: every status change is
    PLACED to WIP or WIP to COMPLETE. *)
Definition strict_state_machine : Prop :=
  ∀ s c e r o o',
    reachable s → objects s !! r = Some o →
    objects (exec c e s) !! r = Some o' →
    Order.status o' ≠ Order.status o →
    (Order.status o = PLACED ∧ Order.status o' = WIP)
    ∨ (Order.status o = WIP ∧ Order.status o' = COMPLETE).

(** Who is registered: key, id, name and skills of each staff record. *)
Definition staff_identity (entry : string * Staff.t)
    : string * string * string * list ProductType :=
  (entry.1, Staff.id entry.2, Staff.name entry.2, Staff.skills entry.2).

(** The item names a product of the catalog and its price is that product's
    price times the quantity. *)
Definition well_priced (catalog : dict string Product.t)
    (item : OrderItem.t) : Prop :=
  ∃ product,
    dict_get (OrderItem.product_code item) catalog = Some product
    ∧ float_mul_int (Product.price product) (OrderItem.quantity item)
      = Some (OrderItem.price item).

(** Some logged-in staff member has the skill for the item's product. *)
Definition staffed (s : WMS) (item : OrderItem.t) : Prop :=
  ∃ product staff_id staff,
    dict_get (OrderItem.product_code item) (products s) = Some product
    ∧ dict_get staff_id (staff_members s) = Some staff
    ∧ Staff.logged_in staff = true
    ∧ Product.product_type product ∈ Staff.skills staff.

(** The product type of the first item without staff, if there is one. *)
Fixpoint first_unmet (catalog : dict string Product.t)
    (mapping : dict ProductType (list staff_ref))
    (items : list OrderItem.t) : option ProductType :=
  match items with
  | [] => None
  | item :: items' =>
      match dict_get (OrderItem.product_code item) catalog with
      | Some product =>
          match mapping_get (Product.product_type product) mapping with
          | [] => Some (Product.product_type product)
          | _ :: _ => first_unmet catalog mapping items'
          end
      | None => None
      end
  end.

(** The line that a pass prints for one order of the queue: none for an
    order that is not PLACED or that is dispatched. *)
Definition diagnostic (s : WMS) (r : ref) : list string :=
  match objects s !! r with
  | Some o =>
      if decide (Order.status o = PLACED) then
        match first_unmet (products s) (product_group_mapping s)
                (Order.items o) with
        | Some pt => ["No available staff for " +:+ ProductType_value pt]
        | None => []
        end
      else []
  | None => []
  end.

(** The request names a catalog product and its quantity is too large to
    convert to [float]. *)
Definition overflows (catalog : dict string Product.t)
    (item : item_request) : Prop :=
  ∃ c product,
    req_product_code item = Some c ∧ dict_get c catalog = Some product
    ∧ float_of_int (default 1%Z (req_quantity item)) = None.

(** The order item that a request turns into, if it names a catalog product:
    quantity 1 and no toppings unless the request says otherwise. *)
Definition build_item (catalog : dict string Product.t)
    (item : item_request) : option OrderItem.t :=
  c ← req_product_code item;
  product ← dict_get c catalog;
  price ← float_mul_int (Product.price product) (default 1%Z (req_quantity item));
  Some (OrderItem.mk c (default 1%Z (req_quantity item))
          (default [] (req_toppings item)) price).

(** The ranges of a [datetime]: year 1 to 9999, month 1 to 12, day 1 to 31. *)
Definition valid_date (t : datetime) : Prop :=
  (1 <= year t < 100 * 100)%nat
  ∧ (1 <= month t <= 12)%nat ∧ (1 <= day t <= 31)%nat.

(** A lowercase hexadecimal digit, as in [uuid4().hex]. *)
Definition hex_digit (c : ascii) : bool :=
  let n := nat_of_ascii c in
  ((48 <=? n)%nat && (n <=? 57)%nat) || ((97 <=? n)%nat && (n <=? 102)%nat).

Fixpoint hex_digits (s : string) : bool :=
  match s with
  | EmptyString => true
  | String c s' => hex_digit c && hex_digits s'
  end.

(** ** Concrete runs used by the examples *)

Definition example_clock : datetime := mk_datetime 2026 11 4 12 30 0 0.

(** Two environments on the same day whose UUIDs differ but share their
    first three hexadecimal digits. *)
Definition env_abc_1 : env :=
  mk_env example_clock "abc0f1e2d3c44b5a96877869504a3b2c" example_clock example_clock.

Definition env_abc_2 : env :=
  mk_env example_clock "abc9182736454c5d8e7f6a5b4c3d2e1f" example_clock example_clock.

Definition one_pizza : list item_request :=
  [mk_item_request (Some "P001") (Some 2%Z) None].

Definition pizza_and_sandwich : list item_request :=
  [mk_item_request (Some "P001") (Some 2%Z) None;
   mk_item_request (Some "S001") (Some 1%Z) None].

(** One order placed, nobody logged in. *)
Definition after_order : WMS :=
  exec (PlaceOrder one_pizza) env_abc_1 WorkloadManagementSystem.

(** Chandler (Veg Pizza, Burger) logged in, a pizza-and-sandwich order
    placed: nobody covers the sandwich. *)
Definition half_staffed : WMS :=
  exec (PlaceOrder pizza_and_sandwich) env_abc_1
    (exec (StaffLogin "S001") env_abc_1 WorkloadManagementSystem).

Definition sandwich_item : OrderItem.t :=
  OrderItem.mk "S001" 1 [] (float_literal 6744140441987318 (-50)).

Definition pizza_and_sandwich_order : Order.t :=
  Order.mk "ORD04112026ABC"
    [OrderItem.mk "P001" 2 [] (float_literal 5060920081257595 (-48));
     sandwich_item]
    PLACED example_clock None.

Definition veg_sandwich : Product.t :=
  Product.mk "S001" "Veg Sandwich" (float_literal 6744140441987318 (-50))
    SANDWICH.

(** The first order is placed and, once Chandler has logged in, dispatched;
    then a second order is placed on the same day, and [uuid4] returns a
    UUID with the same first three hexadecimal digits. *)
Definition after_collision : WMS :=
  exec (PlaceOrder one_pizza) env_abc_2
    (exec ProcessOrders env_abc_1
       (exec (StaffLogin "S001") env_abc_1 after_order)).

(** Chandler (Veg Pizza, Burger) logged in and a pizza ordered. *)
Definition pizza_staffed : WMS :=
  exec (StaffLogin "S001") env_abc_1 after_order.

Definition pizza_order : Order.t :=
  Order.mk "ORD04112026ABC"
    [OrderItem.mk "P001" 2 [] (float_literal 5060920081257595 (-48))]
    PLACED example_clock None.

(** The pizza order dispatched. *)
Definition pizza_in_progress : WMS :=
  exec ProcessOrders env_abc_1 pizza_staffed.

(** The pizza order completed while still PLACED. *)
Definition pizza_completed : WMS :=
  exec (CompleteOrderItem "ORD04112026ABC" "P001") env_abc_1 after_order.

(** A quantity that no [float] holds. *)
Definition huge_quantity : list item_request :=
  [mk_item_request (Some "UNKNOWN") (Some 1%Z) None;
   mk_item_request (Some "P001") (Some (2 ^ 1024)%Z) None].

(** A drink without quantity or toppings, an unknown code, and a request
    without product code. *)
Definition sparse_request : list item_request :=
  [mk_item_request (Some "D001") None None;
   mk_item_request (Some "UNKNOWN") (Some 3%Z) (Some ["cheese"]);
   mk_item_request None (Some 1%Z) None].

(** Joey, Chandler and Monica logged in, in that order. *)
Definition three_logged_in : WMS :=
  exec (StaffLogin "S004") env_abc_1
    (exec (StaffLogin "S001") env_abc_1
       (exec (StaffLogin "S002") env_abc_1 WorkloadManagementSystem)).

(** A second pizza order placed right after the first. *)
Definition two_orders : WMS :=
  exec (PlaceOrder one_pizza) env_abc_2 after_order.

(** * Properties *)

(** ** Dictionaries *)

Section DictFacts.
Context {K V : Type} `{EqDecision K}.
Implicit Types (d : dict K V) (k : K).

Lemma dict_get_alter (f : V -> V) k k' d :
  dict_get k (dict_alter f k' d)
  = if decide (k = k') then f <$> dict_get k d else dict_get k d.
Proof.
  induction d as [|[k0 v0] d IH]; simpl.
  - by destruct (decide (k = k')).
  - destruct (decide (k' = k0)) as [->|Hne]; simpl;
      repeat case_decide; simplify_eq; done.
Qed.

Lemma dict_keys_alter (f : V -> V) k d :
  dict_keys (dict_alter f k d) = dict_keys d.
Proof.
  induction d as [|[k0 v0] d IH]; simpl; [done|].
  destruct (decide (k = k0)); simpl; [done|]. by f_equal.
Qed.

Lemma dict_get_Some_elem_of k v d : dict_get k d = Some v → (k, v) ∈ d.
Proof.
  induction d as [|[k0 v0] d IH]; simpl; [done|].
  destruct (decide (k = k0)) as [->|]; intros Hg.
  - injection Hg as ->. apply list_elem_of_here.
  - apply list_elem_of_further. by apply IH.
Qed.

Lemma dict_get_None_keys k d : dict_get k d = None ↔ k ∉ dict_keys d.
Proof.
  induction d as [|[k0 v0] d IH]; simpl.
  - split; [intros _; apply not_elem_of_nil|done].
  - rewrite not_elem_of_cons. destruct (decide (k = k0)) as [->|Hne].
    + split; [done|]. by intros [? _].
    + rewrite IH. tauto.
Qed.

Lemma elem_of_dict_get k v d :
  NoDup (dict_keys d) → (k, v) ∈ d → dict_get k d = Some v.
Proof.
  induction d as [|[k0 v0] d IH]; simpl; intros Hnd Hin.
  - by apply elem_of_nil in Hin.
  - apply NoDup_cons in Hnd as [Hk0 Hnd].
    apply elem_of_cons in Hin as [Heq|Hin].
    + injection Heq as -> ->. by rewrite decide_True.
    + destruct (decide (k = k0)) as [->|]; [|by apply IH].
      exfalso. apply Hk0. apply list_elem_of_fmap. by exists (k0, v).
Qed.

Lemma dict_mem_true k d : dict_mem k d = true ↔ is_Some (dict_get k d).
Proof.
  unfold dict_mem. destruct (dict_get k d); split; try done.
Qed.

End DictFacts.

(** ** Lists *)

Lemma elem_of_List_filter {A} (f : A -> bool) (x : A) (l : list A) :
  x ∈ List.filter f l ↔ f x = true ∧ x ∈ l.
Proof.
  rewrite !list_elem_of_In, filter_In. tauto.
Qed.

Lemma List_filter_ext_elem_of {A} (f g : A -> bool) (l : list A) :
  (∀ x, x ∈ l → f x = g x) → List.filter f l = List.filter g l.
Proof.
  intros Hfg. apply filter_ext_in. intros x Hx. apply Hfg.
  by apply list_elem_of_In.
Qed.

Lemma NoDup_List_filter {A} (f : A -> bool) (l : list A) :
  NoDup l → NoDup (List.filter f l).
Proof.
  induction 1 as [|x l Hx Hnd IH]; simpl; [constructor|].
  destruct (f x); [|done]. constructor; [|done].
  rewrite elem_of_List_filter. tauto.
Qed.

Lemma List_filter_filter {A} (f g : A -> bool) (l : list A) :
  List.filter f (List.filter g l) = List.filter (fun x => g x && f x) l.
Proof.
  induction l as [|x l IH]; simpl; [done|].
  destruct (g x); simpl; [destruct (f x)|]; by rewrite ?IH.
Qed.

Lemma List_filter_all {A} (f : A -> bool) (l : list A) :
  (∀ x, x ∈ l → f x = true) → List.filter f l = l.
Proof.
  induction l as [|x l IH]; simpl; intros Hall; [done|].
  rewrite Hall by apply list_elem_of_here.
  f_equal. apply IH. intros y Hy. apply Hall. by apply list_elem_of_further.
Qed.

Lemma List_filter_none {A} (f : A -> bool) (l : list A) :
  (∀ x, x ∈ l → f x = false) → List.filter f l = [].
Proof.
  induction l as [|x l IH]; simpl; intros Hall; [done|].
  rewrite Hall by apply list_elem_of_here.
  apply IH. intros y Hy. apply Hall. by apply list_elem_of_further.
Qed.

(** When exactly one element of a duplicate-free list passes the test,
    [remove] takes out that element and nothing else. *)
Lemma list_remove_unique (test : ref -> bool) (l : list ref) (r : ref) :
  NoDup l → r ∈ l → test r = true →
  (∀ y, y ∈ l → test y = true → y = r) →
  list_remove test l = Some (List.filter (fun y => negb (bool_decide (y = r))) l).
Proof.
  induction 1 as [|x l Hx Hnd IH]; intros Hin Hr Huniq.
  - by apply elem_of_nil in Hin.
  - simpl. destruct (test x) eqn:Hx'.
    + assert (x = r) as -> by (apply Huniq; [apply list_elem_of_here|done]).
      rewrite bool_decide_true by done. simpl. f_equal. symmetry.
      apply List_filter_all. intros y Hy.
      rewrite bool_decide_false; [done|]. by intros ->.
    + assert (x ≠ r) as Hne by (intros ->; congruence).
      rewrite bool_decide_false by done. simpl.
      apply elem_of_cons in Hin as [->|Hin]; [done|].
      rewrite IH; [done|done|done|].
      intros y Hy. apply Huniq. by apply list_elem_of_further.
Qed.

(** ** The capability index *)

Lemma empty_mapping_total : total empty_mapping.
Proof. intros []; by eexists. Qed.

Lemma mapping_get_empty C : mapping_get C empty_mapping = [].
Proof. by destruct C. Qed.

Lemma total_alter f skill mapping :
  total mapping → total (dict_alter f skill mapping).
Proof.
  intros Ht C. rewrite dict_get_alter. destruct (Ht C) as [l ->].
  case_decide; by eexists.
Qed.

Lemma mapping_get_alter_append C skill k mapping :
  total mapping →
  mapping_get C (dict_alter (fun l => l ++ [k]) skill mapping)
  = if decide (C = skill) then mapping_get C mapping ++ [k]
    else mapping_get C mapping.
Proof.
  intros Ht. unfold mapping_get. rewrite dict_get_alter.
  destruct (Ht C) as [l ->]. by case_decide.
Qed.

Lemma append_staff_total k skills mapping :
  total mapping → total (append_staff k skills mapping).
Proof.
  revert mapping. induction skills as [|skill skills IH]; simpl; [done|].
  intros mapping Ht. by apply IH, total_alter.
Qed.

Lemma elem_of_append_staff x C k skills mapping :
  total mapping →
  x ∈ mapping_get C (append_staff k skills mapping)
  ↔ x ∈ mapping_get C mapping ∨ (x = k ∧ C ∈ skills).
Proof.
  revert mapping. induction skills as [|skill skills IH]; simpl; intros mapping Ht.
  - rewrite elem_of_nil. tauto.
  - rewrite IH by by apply total_alter.
    rewrite mapping_get_alter_append by done. rewrite elem_of_cons.
    case_decide as Hc.
    + subst skill. rewrite elem_of_app, list_elem_of_singleton. tauto.
    + split; [tauto|]. intros [?|[? [?|?]]]; tauto.
Qed.

Lemma index_staff_total members mapping :
  total mapping → total (index_staff members mapping).
Proof.
  revert mapping. induction members as [|[key staff] members IH]; simpl; [done|].
  intros mapping Ht. apply IH. destruct (Staff.logged_in staff); [|done].
  by apply append_staff_total.
Qed.

Lemma elem_of_index_staff x C members mapping :
  total mapping →
  x ∈ mapping_get C (index_staff members mapping)
  ↔ x ∈ mapping_get C mapping
    ∨ ∃ staff, (x, staff) ∈ members ∧ Staff.logged_in staff = true
               ∧ C ∈ Staff.skills staff.
Proof.
  revert mapping.
  induction members as [|[key staff] members IH]; simpl; intros mapping Ht.
  - split; [tauto|]. intros [?|(? & Hin & _)]; [done|].
    by apply elem_of_nil in Hin.
  - rewrite IH; last first.
    { destruct (Staff.logged_in staff); [by apply append_staff_total|done]. }
    destruct (Staff.logged_in staff) eqn:Hlog.
    + rewrite elem_of_append_staff by done. split.
      * intros [[?|[-> ?]]|(st & Hin & ? & ?)]; [tauto| |].
        -- right. exists staff. split; [apply list_elem_of_here|done].
        -- right. exists st. split; [by apply list_elem_of_further|done].
      * intros [?|(st & Hin & ? & ?)]; [tauto|].
        apply elem_of_cons in Hin as [Heq|Hin].
        -- injection Heq as -> ->. tauto.
        -- right. by exists st.
    + split.
      * intros [?|(st & Hin & ? & ?)]; [tauto|].
        right. exists st. split; [by apply list_elem_of_further|done].
      * intros [?|(st & Hin & ? & ?)]; [tauto|].
        apply elem_of_cons in Hin as [Heq|Hin].
        -- injection Heq as -> ->. congruence.
        -- right. by exists st.
Qed.

(** The index that [_update_product_group_mapping] computes holds, under
    each product type, exactly the logged-in staff with that skill. *)
Lemma rebuilt_index_exact members C k :
  NoDup (dict_keys members) →
  k ∈ mapping_get C (index_staff members empty_mapping)
  ↔ ∃ staff, dict_get k members = Some staff
             ∧ Staff.logged_in staff = true ∧ C ∈ Staff.skills staff.
Proof.
  intros Hnd. rewrite elem_of_index_staff by apply empty_mapping_total.
  rewrite mapping_get_empty, elem_of_nil. split.
  - intros [[]|(st & Hin & ? & ?)]. exists st.
    split; [by apply elem_of_dict_get|done].
  - intros (st & Hget & ? & ?). right. exists st.
    split; [by apply dict_get_Some_elem_of|done].
Qed.

(** ** Running the monad *)

Lemma bind_Ok {A B} (m : M A) (f : A -> M B) e s a s' :
  m e s = (Ok a, s') → (m ≫= f) e s = f a e s'.
Proof. intros Hm. unfold mbind, M_bind. by rewrite Hm. Qed.

Lemma bind_Raise {A B} (m : M A) (f : A -> M B) e s x s' :
  m e s = (Raise x, s') → (m ≫= f) e s = (Raise x, s').
Proof. intros Hm. unfold mbind, M_bind. by rewrite Hm. Qed.

Lemma deref_Some r o e s : objects s !! r = Some o → deref r e s = (Ok o, s).
Proof. intros Hr. unfold deref. by rewrite Hr. Qed.

Lemma set_objects_id s : set_objects (objects s) s = s.
Proof. by destruct s. Qed.

Lemma set_stdout_nil s : set_stdout (stdout s ++ []) s = s.
Proof. destruct s; unfold set_stdout; simpl. by rewrite app_nil_r. Qed.

Lemma update_status_WIP r o e s :
  objects s !! r = Some o →
  update_status r WIP e s
  = (Ok tt, set_objects (<[r := Order.set_status WIP o]> (objects s)) s).
Proof.
  intros Hr. unfold update_status, mutate.
  rewrite (bind_Ok _ _ e s tt
             (set_objects (<[r := Order.set_status WIP o]> (objects s)) s)).
  - by rewrite decide_False.
  - by rewrite (bind_Ok _ _ e s o s) by by apply deref_Some.
Qed.

Lemma update_status_COMPLETE r o e s :
  objects s !! r = Some o →
  update_status r COMPLETE e s
  = (Ok tt,
     set_objects
       (<[r := Order.set_completed_at (Some (now_completed_at e))
                 (Order.set_status COMPLETE o)]> (objects s)) s).
Proof.
  intros Hr. unfold update_status, mutate.
  assert (r < length (objects s)) as Hlen by by eapply lookup_lt_Some.
  rewrite (bind_Ok _ _ e s tt
             (set_objects (<[r := Order.set_status COMPLETE o]> (objects s)) s));
    last by rewrite (bind_Ok _ _ e s o s) by by apply deref_Some.
  rewrite decide_True by done.
  erewrite (bind_Ok (ask now_completed_at)); [|reflexivity].
  erewrite (bind_Ok (deref r)); last first.
  { apply deref_Some. simpl. by rewrite list_lookup_insert_eq. }
  unfold modify, set_objects. simpl. by rewrite list_insert_insert_eq.
Qed.

(** ** Well-formed states *)

Lemma wf_set_stdout out s : wf s → wf (set_stdout out s).
Proof. intros [? ? ? ? ? ? ?]. by constructor. Qed.

(** ** Dispatch *)

Lemma assign_items_spec items e s :
  (∀ item, item ∈ items →
     is_Some (dict_get (OrderItem.product_code item) (products s))) →
  ∃ out,
    assign_items items e s
    = (Ok (forallb (has_staff (products s) (product_group_mapping s)) items),
       set_stdout (stdout s ++ out) s).
Proof.
  induction items as [|item items IH]; intros Hknown.
  - exists []. simpl. by rewrite set_stdout_nil.
  - destruct (Hknown item) as [product Hp]; [apply list_elem_of_here|].
    destruct IH as [out IH].
    { intros i Hi. apply Hknown. by apply list_elem_of_further. }
    simpl. unfold has_staff at 1. rewrite Hp.
    erewrite (bind_Ok (gets products)); [|reflexivity]. rewrite Hp.
    erewrite (bind_Ok (gets product_group_mapping)); [|reflexivity].
    destruct (mapping_get _ _) as [|k l]; simpl.
    + eexists [_]. reflexivity.
    + exists out. apply IH.
Qed.

Lemma Order_eqb_status a b : Order.eqb a b = true → Order.status a = Order.status b.
Proof.
  unfold Order.eqb. rewrite !andb_true_iff, !bool_decide_eq_true. tauto.
Qed.

(** In a well-formed state [remove] takes the dispatched order itself out of
    the queue: no other queued order equals it, since none is WIP. *)
Lemma dispatch_step r o e s :
  wf s → r ∈ orders_queue s → objects s !! r = Some o →
  (update_status r WIP;; queue_remove r) e s = (Ok tt, dispatched r o s).
Proof.
  intros Hwf Hin Hr.
  assert (r < length (objects s)) as Hlen by by eapply lookup_lt_Some.
  erewrite bind_Ok; [|by apply update_status_WIP].
  unfold queue_remove.
  erewrite (bind_Ok (gets objects)); [|reflexivity].
  erewrite (bind_Ok (gets orders_queue)); [|reflexivity].
  simpl. rewrite (list_remove_unique _ _ r); [done|by apply Hwf|done| |].
  - unfold same_or_equal. by rewrite bool_decide_true.
  - intros y Hy. unfold same_or_equal.
    destruct (decide (y = r)) as [->|Hne]; [done|].
    rewrite bool_decide_false by done. simpl.
    rewrite list_lookup_insert_ne by done.
    rewrite list_lookup_insert_eq by done.
    destruct (objects s !! y) as [oy|] eqn:Hoy; [|intros [=]].
    intros Heq%Order_eqb_status. simpl in Heq.
    by destruct (wf_queue_not_wip s Hwf y oy).
Qed.

Lemma wf_dispatched r o s :
  wf s → r ∈ orders_queue s → objects s !! r = Some o →
  Order.status o = PLACED → wf (dispatched r o s).
Proof.
  intros Hwf Hin Hr Hst.
  assert (r < length (objects s)) as Hlen by by eapply lookup_lt_Some.
  constructor; simpl.
  - apply NoDup_List_filter, Hwf.
  - intros y [_ Hy]%elem_of_List_filter.
    apply lookup_lt_is_Some. rewrite length_insert.
    apply lookup_lt_is_Some. by apply Hwf.
  - intros y oy [Hne Hy]%elem_of_List_filter.
    apply negb_true_iff, bool_decide_eq_false in Hne.
    rewrite list_lookup_insert_ne by done. by apply Hwf.
  - intros y oy. destruct (decide (y = r)) as [->|Hne].
    + rewrite list_lookup_insert_eq by done. intros [= <-].
      exact (wf_known_items s Hwf r o Hr).
    + rewrite list_lookup_insert_ne by done. apply Hwf.
  - intros y oy. destruct (decide (y = r)) as [->|Hne].
    + rewrite list_lookup_insert_eq by done. intros [= <-]. simpl.
      pose proof (wf_completed_at s Hwf r o Hr) as Hc.
      rewrite Hst in Hc. split; [|done].
      intros Hsome. by apply Hc in Hsome.
    + rewrite list_lookup_insert_ne by done. apply Hwf.
  - apply Hwf.
  - apply Hwf.
Qed.

Lemma dispatchable_dispatched r o s x :
  x ≠ r → dispatchable (dispatched r o s) x = dispatchable s x.
Proof.
  intros Hne. unfold dispatchable, dispatched. simpl.
  by rewrite list_lookup_insert_ne.
Qed.

Lemma pass_result_nil s : pass_result s s [].
Proof.
  constructor; try done.
  - symmetry. apply List_filter_all. intros x _.
    rewrite bool_decide_false; [done|apply not_elem_of_nil].
  - exists []. by rewrite app_nil_r.
Qed.

Lemma pass_result_stdout out s s' D :
  pass_result (set_stdout (stdout s ++ out) s) s' D → pass_result s s' D.
Proof.
  intros [Hq Ho Hs Hp Hm [out' Hout]]. constructor; try done.
  exists (out ++ out'). simpl in Hout. by rewrite Hout, app_assoc.
Qed.

Lemma pass_result_dispatched r o s s' D :
  objects s !! r = Some o → r ∉ D →
  pass_result (dispatched r o s) s' D → pass_result s s' (r :: D).
Proof.
  intros Hr HrD [Hq Ho Hs Hp Hm Hout].
  assert (r < length (objects s)) as Hlen by by eapply lookup_lt_Some.
  constructor; try done.
  - rewrite Hq. simpl. rewrite List_filter_filter.
    apply List_filter_ext_elem_of. intros x _.
    destruct (decide (x = r)) as [->|Hne].
    + rewrite bool_decide_true by done.
      rewrite (bool_decide_true (r ∈ r :: D)) by apply list_elem_of_here. done.
    + rewrite (bool_decide_false (x = r)) by done. simpl.
      f_equal. apply bool_decide_ext. rewrite elem_of_cons. tauto.
  - intros x. rewrite Ho. simpl. destruct (decide (x = r)) as [->|Hne].
    + rewrite bool_decide_false by done.
      rewrite bool_decide_true by apply list_elem_of_here.
      rewrite list_lookup_insert_eq by done. by rewrite Hr.
    + rewrite list_lookup_insert_ne by done.
      rewrite (bool_decide_ext (x ∈ r :: D) (x ∈ D)); [done|].
      rewrite elem_of_cons. tauto.
Qed.

(** The loop of [process_orders] over a duplicate-free part of the queue:
    it returns, collects the dispatchable orders in scan order, and takes
    exactly those out of the queue. *)
Lemma process_loop_spec copy : ∀ processed e s,
  wf s → NoDup copy → (∀ r, r ∈ copy → r ∈ orders_queue s) →
  ∃ s',
    process_loop copy processed e s
    = (Ok (processed ++ List.filter (dispatchable s) copy), s')
    ∧ wf s' ∧ pass_result s s' (List.filter (dispatchable s) copy).
Proof.
  induction copy as [|r copy IH]; intros processed e s Hwf Hnd Hsub.
  { exists s. simpl. rewrite app_nil_r.
    split; [done|]. split; [done|]. apply pass_result_nil. }
  apply NoDup_cons in Hnd as [Hr Hnd].
  assert (r ∈ orders_queue s) as Hin by apply Hsub, list_elem_of_here.
  destruct (wf_queue_bound s Hwf r Hin) as [o Ho].
  assert (dispatchable s r
          = bool_decide (Order.status o = PLACED)
            && forallb (has_staff (products s) (product_group_mapping s))
                 (Order.items o)) as Hd.
  { unfold dispatchable. by rewrite Ho. }
  cbn [process_loop List.filter].
  erewrite (bind_Ok (deref r)); [|by apply deref_Some].
  destruct (decide (Order.status o ≠ PLACED)) as [Hst|Hst].
  { rewrite bool_decide_false in Hd by done. rewrite Hd.
    apply IH; [done|done|].
    intros y Hy. by apply Hsub, list_elem_of_further. }
  apply dec_stable in Hst. rewrite bool_decide_true in Hd by done.
  simpl in Hd.
  destruct (assign_items_spec (Order.items o) e s) as [out Hassign].
  { exact (wf_known_items s Hwf r o Ho). }
  erewrite (bind_Ok (assign_items _)); [|exact Hassign].
  rewrite Hd.
  destruct (forallb _ (Order.items o)) eqn:Hall.
  - (* every item has staff: the order is dispatched *)
    set (s0 := set_stdout (stdout s ++ out) s) in *.
    assert (wf s0) as Hwf0 by by apply wf_set_stdout.
    pose proof (dispatch_step r o e s0 Hwf0 Hin Ho) as Hstep.
    unfold mbind, M_bind in Hstep |- *.
    destruct (update_status r WIP e s0) as [[[]|x] s1]; [|done].
    destruct (queue_remove r e s1) as [[[]|x] s2]; [|done].
    injection Hstep as ->.
    destruct (IH (processed ++ [r]) e (dispatched r o s0)) as (s' & Hloop & Hwf' & Hpass).
    { by apply wf_dispatched. }
    { done. }
    { intros y Hy. simpl. apply elem_of_List_filter. split.
      - rewrite bool_decide_false; [done|]. by intros ->.
      - by apply Hsub, list_elem_of_further. }
    assert (List.filter (dispatchable (dispatched r o s0)) copy
            = List.filter (dispatchable s) copy) as Heq.
    { apply List_filter_ext_elem_of. intros x Hx.
      rewrite dispatchable_dispatched; [done|]. by intros ->. }
    rewrite Heq in Hloop, Hpass.
    exists s'. split; [|split; [done|]].
    + fold process_loop. rewrite Hloop. by rewrite <- app_assoc.
    + apply (pass_result_stdout out). fold s0.
      apply (pass_result_dispatched r o); [done| |done].
      rewrite elem_of_List_filter. tauto.
  - (* some item has no staff: the order stays where it is *)
    destruct (IH processed e (set_stdout (stdout s ++ out) s))
      as (s' & Hloop & Hwf' & Hpass).
    { by apply wf_set_stdout. }
    { done. }
    { intros y Hy. by apply Hsub, list_elem_of_further. }
    exists s'. split; [exact Hloop|]. split; [done|].
    by apply (pass_result_stdout out).
Qed.

Lemma process_orders_spec e s :
  wf s →
  ∃ s',
    process_orders e s
    = (Ok (List.filter (dispatchable s) (orders_queue s)), s')
    ∧ wf s'
    ∧ pass_result s s' (List.filter (dispatchable s) (orders_queue s)).
Proof.
  intros Hwf. unfold process_orders.
  erewrite (bind_Ok (gets orders_queue)); [|reflexivity].
  destruct (process_loop_spec (orders_queue s) [] e s) as (s' & Hloop & ? & ?);
    [done|apply Hwf|done|].
  exists s'. by rewrite Hloop.
Qed.

(** After a pass the queue holds the orders that were not dispatchable, in
    their former order. *)
Lemma pass_result_queue s s' :
  pass_result s s' (List.filter (dispatchable s) (orders_queue s)) →
  orders_queue s'
  = List.filter (fun r => negb (dispatchable s r)) (orders_queue s).
Proof.
  intros Hpass. rewrite (pass_queue _ _ _ Hpass).
  apply List_filter_ext_elem_of. intros x Hx. f_equal.
  destruct (dispatchable s x) eqn:Hd.
  - apply bool_decide_eq_true. by apply elem_of_List_filter.
  - apply bool_decide_eq_false. rewrite elem_of_List_filter. intros [? _].
    congruence.
Qed.

(** ** Well-formedness is an invariant *)

Lemma wf_init : wf WorkloadManagementSystem.
Proof.
  constructor; simpl.
  - constructor.
  - intros r Hr. by apply elem_of_nil in Hr.
  - intros r o Hr. by apply elem_of_nil in Hr.
  - intros r o Hr. by rewrite lookup_nil in Hr.
  - intros r o Hr. by rewrite lookup_nil in Hr.
  - reflexivity.
  - by apply (bool_decide_unpack _); vm_compute.
Qed.

Lemma set_login_spec staff_id v e s :
  set_login staff_id v e s
  = if dict_mem staff_id (staff_members s)
    then (Ok true,
          rebuild_mapping
            (set_staff_members
               (dict_alter (Staff.set_logged_in v) staff_id (staff_members s)) s))
    else (Ok false, s).
Proof.
  unfold set_login. erewrite (bind_Ok (gets staff_members)); [|reflexivity].
  by destruct (dict_mem staff_id (staff_members s)).
Qed.

Lemma wf_set_login staff_id v e s : wf s → wf (snd (set_login staff_id v e s)).
Proof.
  intros Hwf. rewrite set_login_spec.
  destruct (dict_mem staff_id (staff_members s)); [|done].
  destruct Hwf. constructor; simpl; try done.
  by rewrite dict_keys_alter.
Qed.

Lemma collect_items_codes catalog items : ∀ acc l,
  collect_items catalog items acc = Ok l →
  map OrderItem.product_code l
  = map OrderItem.product_code acc ++ omap (resolved_code catalog) items.
Proof.
  induction items as [|item items IH]; intros acc l; simpl.
  - intros [= ->]. by rewrite app_nil_r.
  - unfold resolved_code at 1, dict_mem.
    destruct (req_product_code item) as [c|]; simpl; [|apply IH].
    destruct (dict_get c catalog) as [product|]; simpl; [|apply IH].
    destruct (float_mul_int _ _) as [price|]; [|done].
    intros Hl%IH. rewrite Hl, map_app. simpl. by rewrite <- app_assoc.
Qed.

Lemma collect_items_none catalog items acc :
  omap (resolved_code catalog) items = [] →
  collect_items catalog items acc = Ok acc.
Proof.
  induction items as [|item items IH]; simpl; [done|].
  unfold resolved_code at 1, dict_mem.
  destruct (req_product_code item) as [c|]; simpl; [|apply IH].
  by destruct (dict_get c catalog) as [product|]; simpl; [|apply IH].
Qed.

Lemma collect_items_known catalog items : ∀ acc l,
  collect_items catalog items acc = Ok l →
  (∀ i, i ∈ acc → is_Some (dict_get (OrderItem.product_code i) catalog)) →
  ∀ i, i ∈ l → is_Some (dict_get (OrderItem.product_code i) catalog).
Proof.
  induction items as [|item items IH]; intros acc l; simpl.
  - by intros [= ->].
  - destruct (req_product_code item) as [c|]; simpl; [|apply IH].
    destruct (dict_get c catalog) as [product|] eqn:Hc; simpl; [|apply IH].
    destruct (float_mul_int _ _) as [price|]; [|done].
    intros Hl Hacc. apply (IH _ _ Hl). intros i [Hi|Hi]%elem_of_app.
    + by apply Hacc.
    + apply list_elem_of_singleton in Hi as ->. simpl. by rewrite Hc.
Qed.

Lemma place_order_spec items e s :
  place_order items e s
  = match collect_items (products s) items [] with
    | Ok [] => (Raise (ValueError "No valid items in order"), s)
    | Ok order_items => (Ok (length (objects s)), placed e order_items s)
    | Raise x => (Raise x, s)
    end.
Proof.
  unfold place_order.
  erewrite (bind_Ok (ask now_order_number)); [|reflexivity].
  erewrite (bind_Ok (ask uuid4_hex)); [|reflexivity].
  erewrite (bind_Ok (gets products)); [|reflexivity].
  unfold lift, mbind, M_bind at 1.
  by destruct (collect_items (products s) items []) as [[|i l]|x].
Qed.

Lemma wf_place_order items e s : wf s → wf (snd (place_order items e s)).
Proof.
  intros Hwf. rewrite place_order_spec.
  destruct (collect_items (products s) items []) as [[|i l]|x] eqn:Hc;
    [done| |done].
  assert (∀ r, r ∈ orders_queue s → r < length (objects s)) as Hbound.
  { intros r Hr. apply lookup_lt_is_Some. by apply Hwf. }
  constructor; simpl.
  - apply NoDup_app. split; [apply Hwf|]. split; [|apply NoDup_singleton].
    intros r Hr Hr'%list_elem_of_singleton. subst r. apply Hbound in Hr. lia.
  - intros r Hr. apply lookup_lt_is_Some. rewrite length_app. simpl.
    apply elem_of_app in Hr as [Hr|Hr%list_elem_of_singleton]; [|lia].
    apply Hbound in Hr. lia.
  - intros r o Hr Ho. apply elem_of_app in Hr as [Hr|Hr%list_elem_of_singleton].
    + rewrite lookup_app_l in Ho by by apply Hbound.
      by apply (wf_queue_not_wip s Hwf r).
    + subst r. rewrite list_lookup_middle in Ho by done. by injection Ho as <-.
  - intros r o Ho. apply lookup_app_Some in Ho as [Ho|[_ Ho]].
    + exact (wf_known_items s Hwf r o Ho).
    + apply list_lookup_singleton_Some in Ho as [_ <-].
      intros it Hit. simpl in Hit.
      apply (collect_items_known _ _ _ _ Hc); [|done].
      intros ? Hnil. by apply elem_of_nil in Hnil.
  - intros r o Ho. apply lookup_app_Some in Ho as [Ho|[_ Ho]].
    + exact (wf_completed_at s Hwf r o Ho).
    + apply list_lookup_singleton_Some in Ho as [_ <-]. simpl.
      split; [by intros [? ?]|done].
  - apply Hwf.
  - apply Hwf.
Qed.

(** ** Completion *)

Lemma find_order_Some store n queue r :
  find_order store n queue = Some r →
  r ∈ queue ∧ ∃ o, store !! r = Some o ∧ Order.order_number o = n.
Proof.
  induction queue as [|x queue IH]; simpl; [done|].
  destruct (store !! x) as [o|] eqn:Hx.
  - destruct (decide (Order.order_number o = n)) as [Hn|Hn].
    + intros [= <-]. split; [apply list_elem_of_here|by exists o].
    + intros [? ?]%IH. split; [by apply list_elem_of_further|done].
  - intros [? ?]%IH. split; [by apply list_elem_of_further|done].
Qed.

Lemma find_order_None store n queue :
  find_order store n queue = None ↔
  ∀ r o, r ∈ queue → store !! r = Some o → Order.order_number o ≠ n.
Proof.
  induction queue as [|x queue IH]; simpl.
  - split; [|done]. intros _ r o Hr. by apply elem_of_nil in Hr.
  - destruct (store !! x) as [ox|] eqn:Hx.
    + destruct (decide (Order.order_number ox = n)) as [Hn|Hn].
      * split; [done|]. intros Hall. destruct (Hall x ox); [apply list_elem_of_here|done..].
      * rewrite IH. split.
        -- intros Hall r o [->|Hr]%elem_of_cons Ho; [congruence|by eapply Hall].
        -- intros Hall r o Hr. apply Hall. by apply list_elem_of_further.
    + rewrite IH. split.
      * intros Hall r o [->|Hr]%elem_of_cons Ho; [congruence|by eapply Hall].
      * intros Hall r o Hr. apply Hall. by apply list_elem_of_further.
Qed.

Lemma complete_order_item_spec n c e s :
  complete_order_item n c e s
  = match find_order (objects s) n (orders_queue s) with
    | Some r =>
        match objects s !! r with
        | Some o => (Ok true, completed e r o s)
        | None => (Raise (BadReference r), s)
        end
    | None => (Ok false, s)
    end.
Proof.
  unfold complete_order_item.
  erewrite (bind_Ok (gets objects)); [|reflexivity].
  erewrite (bind_Ok (gets orders_queue)); [|reflexivity].
  destruct (find_order _ _ _) as [r|] eqn:Hfind; [|done].
  apply find_order_Some in Hfind as (_ & o & Ho & _). rewrite Ho.
  by erewrite bind_Ok; [|by apply update_status_COMPLETE].
Qed.

Lemma wf_completed e r o s :
  wf s → r ∈ orders_queue s → objects s !! r = Some o → wf (completed e r o s).
Proof.
  intros Hwf Hin Hr.
  assert (r < length (objects s)) as Hlen by by eapply lookup_lt_Some.
  constructor; simpl; try apply Hwf.
  - intros y Hy. apply lookup_lt_is_Some. rewrite length_insert.
    apply lookup_lt_is_Some. by apply Hwf.
  - intros y oy Hy. destruct (decide (y = r)) as [->|Hne].
    + rewrite list_lookup_insert_eq by done. by intros [= <-].
    + rewrite list_lookup_insert_ne by done. by apply Hwf.
  - intros y oy. destruct (decide (y = r)) as [->|Hne].
    + rewrite list_lookup_insert_eq by done. intros [= <-].
      exact (wf_known_items s Hwf r o Hr).
    + rewrite list_lookup_insert_ne by done. apply Hwf.
  - intros y oy. destruct (decide (y = r)) as [->|Hne].
    + rewrite list_lookup_insert_eq by done. intros [= <-]. simpl.
      split; [done|]. by eexists.
    + rewrite list_lookup_insert_ne by done. apply Hwf.
Qed.

Lemma wf_complete_order_item n c e s :
  wf s → wf (snd (complete_order_item n c e s)).
Proof.
  intros Hwf. rewrite complete_order_item_spec.
  destruct (find_order _ _ _) as [r|] eqn:Hfind; [|done].
  apply find_order_Some in Hfind as (Hin & o & Ho & _). rewrite Ho.
  by apply wf_completed.
Qed.

Lemma wf_exec c e s : wf s → wf (exec c e s).
Proof.
  intros Hwf. destruct c; simpl.
  - by apply wf_set_login.
  - by apply wf_set_login.
  - by apply wf_place_order.
  - destruct (process_orders_spec e s Hwf) as (s' & -> & ? & _). done.
  - by apply wf_complete_order_item.
  - done.
  - done.
Qed.

Lemma reachable_wf s : reachable s → wf s.
Proof. induction 1; [apply wf_init|by apply wf_exec]. Qed.

(** The catalog never changes. *)
Lemma exec_products c e s : wf s → products (exec c e s) = products s.
Proof.
  intros Hwf. destruct c; simpl; try done.
  - unfold staff_login. rewrite set_login_spec. by destruct (dict_mem _ _).
  - unfold staff_logout. rewrite set_login_spec. by destruct (dict_mem _ _).
  - rewrite place_order_spec. by destruct (collect_items _ _ _) as [[|??]|?].
  - destruct (process_orders_spec e s Hwf) as (s' & -> & _ & Hpass).
    apply Hpass.
  - rewrite complete_order_item_spec.
    destruct (find_order _ _ _); [|done]. by destruct (objects s !! _).
Qed.

(** * The claims *)

Lemma reachable_after_order : reachable after_order.
Proof. apply reachable_exec, reachable_init. Qed.

Lemma reachable_half_staffed : reachable half_staffed.
Proof. do 2 apply reachable_exec. apply reachable_init. Qed.

(** ** C3: the capability index *)

(** C3. After any [staff_login] or [staff_logout] call, made in any
    reachable state, the index entry of every product type holds exactly the
    staff members who are logged in and have that product type among their
    skills; so it never holds a staff member who is not logged in. *)
Theorem index_consistency s s' staff_id e :
  reachable s →
  s' = snd (staff_login staff_id e s) ∨ s' = snd (staff_logout staff_id e s) →
  ∀ C k,
    k ∈ available_for s' C
    ↔ ∃ staff, dict_get k (staff_members s') = Some staff
               ∧ Staff.logged_in staff = true ∧ C ∈ Staff.skills staff.
Proof.
  intros Hs Hs' C k.
  assert (wf s') as Hwf.
  { destruct Hs' as [->| ->].
    - apply (wf_exec (StaffLogin staff_id)). by apply reachable_wf.
    - apply (wf_exec (StaffLogout staff_id)). by apply reachable_wf. }
  unfold available_for. rewrite (wf_index s' Hwf).
  apply rebuilt_index_exact, Hwf.
Qed.

Lemma index_consistency_witness :
  reachable WorkloadManagementSystem
  ∧ ("S001" ∈ available_for
               (snd (staff_login "S001" env_abc_1 WorkloadManagementSystem))
               BURGER
     ↔ ∃ staff,
         dict_get "S001"
           (staff_members
              (snd (staff_login "S001" env_abc_1 WorkloadManagementSystem)))
         = Some staff
         ∧ Staff.logged_in staff = true ∧ BURGER ∈ Staff.skills staff).
Proof.
  split; [apply reachable_init|].
  apply (index_consistency WorkloadManagementSystem _ "S001" env_abc_1);
    [apply reachable_init|by left].
Defined.

(** ** C9: completion time stamps *)

(** C9. In every reachable state, every order ever created (queued or not)
    has [completed_at] set if and only if its status is COMPLETE. *)
Theorem completed_at_iff_complete s r o :
  reachable s → objects s !! r = Some o →
  (is_Some (Order.completed_at o) ↔ Order.status o = COMPLETE).
Proof. intros Hs. apply wf_completed_at. by apply reachable_wf. Qed.

Lemma completed_at_iff_complete_witness :
  reachable after_order
  ∧ objects after_order !! 0
    = Some (Order.mk "ORD04112026ABC"
              [OrderItem.mk "P001" 2 [] (float_literal 5060920081257595 (-48))]
              PLACED example_clock None)
  ∧ (is_Some (None : option datetime) ↔ PLACED = COMPLETE).
Proof.
  split; [apply reachable_after_order|]. split; [by vm_compute|].
  apply (completed_at_iff_complete after_order 0
           (Order.mk "ORD04112026ABC"
              [OrderItem.mk "P001" 2 [] (float_literal 5060920081257595 (-48))]
              PLACED example_clock None));
    [apply reachable_after_order|by vm_compute].
Defined.

(** ** C1: the status of an order only moves forward *)

Lemma set_login_objects staff_id v e s :
  objects (snd (set_login staff_id v e s)) = objects s.
Proof. rewrite set_login_spec. by destruct (dict_mem _ _). Qed.

(** C1, as the code has it.  A call changes the status of an order only
    forwards: [process_orders] moves it from PLACED to WIP, and
    [complete_order_item], which does not look at the status, moves it to
    COMPLETE from whatever status it has, so also directly from PLACED.
    No other call changes a status, and no status ever goes back. *)
Theorem status_forward_only s c e r o :
  reachable s → objects s !! r = Some o →
  ∃ o', objects (exec c e s) !! r = Some o'
    ∧ (Order.status o' = Order.status o
       ∨ (Order.status o = PLACED ∧ Order.status o' = WIP ∧ c = ProcessOrders)
       ∨ (Order.status o ≠ COMPLETE ∧ Order.status o' = COMPLETE
          ∧ ∃ n p, c = CompleteOrderItem n p)).
Proof.
  intros Hs%reachable_wf Ho. destruct c; simpl.
  - exists o. unfold staff_login. rewrite set_login_objects. tauto.
  - exists o. unfold staff_logout. rewrite set_login_objects. tauto.
  - exists o. split; [|tauto]. rewrite place_order_spec.
    destruct (collect_items _ _ _) as [[|i l]|x]; simpl; try done.
    rewrite lookup_app_l; [done|]. by eapply lookup_lt_Some.
  - destruct (process_orders_spec e s Hs) as (s' & -> & _ & Hpass). simpl.
    rewrite (pass_objects _ _ _ Hpass), Ho. case_bool_decide as Hd.
    + exists (Order.set_status WIP o). split; [done|]. right; left.
      apply elem_of_List_filter in Hd as [Hd _].
      unfold dispatchable in Hd. rewrite Ho in Hd.
      apply andb_true_iff in Hd as [Hd%bool_decide_eq_true _]. done.
    + exists o. tauto.
  - rewrite complete_order_item_spec.
    destruct (find_order _ _ _) as [r0|] eqn:Hfind; [|exists o; tauto].
    apply find_order_Some in Hfind as (_ & o0 & Ho0 & _). rewrite Ho0. simpl.
    destruct (decide (r = r0)) as [->|Hne].
    + rewrite list_lookup_insert_eq by by eapply lookup_lt_Some.
      eexists. split; [done|]. simpl.
      assert (o0 = o) as -> by congruence.
      destruct (decide (Order.status o = COMPLETE)) as [->|Hc]; [tauto|].
      right; right. eauto.
    + rewrite list_lookup_insert_ne by done. exists o. tauto.
  - exists o. tauto.
  - exists o. tauto.
Qed.

Lemma status_forward_only_witness :
  reachable after_order
  ∧ objects after_order !! 0
    = Some (Order.mk "ORD04112026ABC"
              [OrderItem.mk "P001" 2 [] (float_literal 5060920081257595 (-48))]
              PLACED example_clock None)
  ∧ ∃ o',
      objects (exec (CompleteOrderItem "ORD04112026ABC" "P001") env_abc_1
                 after_order) !! 0 = Some o'
      ∧ (Order.status o' = PLACED
         ∨ (PLACED = PLACED ∧ Order.status o' = WIP
            ∧ CompleteOrderItem "ORD04112026ABC" "P001" = ProcessOrders)
         ∨ (PLACED ≠ COMPLETE ∧ Order.status o' = COMPLETE
            ∧ ∃ n p, CompleteOrderItem "ORD04112026ABC" "P001"
                     = CompleteOrderItem n p)).
Proof.
  split; [apply reachable_after_order|]. split; [by vm_compute|].
  apply (status_forward_only after_order
           (CompleteOrderItem "ORD04112026ABC" "P001") env_abc_1 0
           (Order.mk "ORD04112026ABC"
              [OrderItem.mk "P001" 2 [] (float_literal 5060920081257595 (-48))]
              PLACED example_clock None));
    [apply reachable_after_order|by vm_compute].
Defined.

(** C1 fails as stated: an order that was just placed, and never
    dispatched, is completed by [complete_order_item]; its status goes from
    PLACED directly to COMPLETE. *)
Lemma placed_order_completes_directly :
  reachable after_order
  ∧ Order.status <$> objects after_order !! 0 = Some PLACED
  ∧ complete_order_item "ORD04112026ABC" "P001" env_abc_1 after_order
    = (Ok true,
       exec (CompleteOrderItem "ORD04112026ABC" "P001") env_abc_1 after_order)
  ∧ Order.status
      <$> objects (exec (CompleteOrderItem "ORD04112026ABC" "P001") env_abc_1
                     after_order) !! 0
    = Some COMPLETE
  ∧ ¬ strict_state_machine.
Proof.
  split; [apply reachable_after_order|].
  split; [by vm_compute|]. split; [by vm_compute|]. split; [by vm_compute|].
  intros Hstrict.
  destruct (Hstrict after_order
              (CompleteOrderItem "ORD04112026ABC" "P001") env_abc_1 0
              (Order.mk "ORD04112026ABC"
                 [OrderItem.mk "P001" 2 [] (float_literal 5060920081257595 (-48))]
                 PLACED example_clock None)
              (Order.mk "ORD04112026ABC"
                 [OrderItem.mk "P001" 2 [] (float_literal 5060920081257595 (-48))]
                 COMPLETE example_clock (Some example_clock)))
    as [[_ Hbad]|[Hbad _]];
    [apply reachable_after_order|by vm_compute|by vm_compute|done|done|done].
Qed.

(** ** C6: orders without a valid item *)

Lemma omap_nil_Forall {A B} (f : A -> option B) (l : list A) :
  omap f l = [] ↔ Forall (fun x => f x = None) l.
Proof.
  induction l as [|x l IH]; simpl.
  - split; [constructor|done].
  - rewrite Forall_cons. destruct (f x); [|by rewrite IH; tauto].
    split; [done|]. by intros [? _].
Qed.

(** C6. [place_order] raises ValueError ("No valid items in order") exactly
    when none of the requests names a product of the catalog.  Whenever it
    raises, the state, and with it the queue, is left as it was.  When it
    returns, the unknown codes were dropped one by one: the new order holds
    the known codes, in request order, and sits at the tail of the queue. *)
Theorem place_order_invalid_iff items e s :
  ((∃ msg, fst (place_order items e s) = Raise (ValueError msg))
   ↔ Forall (fun item => resolved_code (products s) item = None) items)
  ∧ (∀ x, fst (place_order items e s) = Raise x →
          snd (place_order items e s) = s)
  ∧ (∀ r, fst (place_order items e s) = Ok r →
          orders_queue (snd (place_order items e s)) = orders_queue s ++ [r]
          ∧ ∃ o, objects (snd (place_order items e s)) !! r = Some o
                 ∧ Order.status o = PLACED
                 ∧ map OrderItem.product_code (Order.items o)
                   = omap (resolved_code (products s)) items).
Proof.
  rewrite place_order_spec, <- omap_nil_Forall.
  destruct (collect_items (products s) items []) as [l|x] eqn:Hc.
  - pose proof (collect_items_codes _ _ _ _ Hc) as Hcodes. simpl in Hcodes.
    destruct l as [|i l]; simpl.
    + split; [|split; [done|done]].
      split; [done|]. intros _. by eexists.
    + split; [|split; [done|]].
      * split; [by intros [? ?]|]. intros Hnil. by rewrite Hnil in Hcodes.
      * intros r [= <-]. split; [done|].
        eexists. split; [apply list_lookup_middle; done|]. by simpl.
  - simpl. split; [|split; [done|done]].
    split.
    + intros [msg [= ->]]. exfalso. revert Hc. clear.
      (* the only exception the item loop raises is OverflowError *)
      generalize (@nil OrderItem.t).
      induction items as [|item items IH]; intros acc; simpl; [done|].
      destruct (req_product_code item ≫= _) as [[c p]|]; [|apply IH].
      destruct (float_mul_int _ _); [apply IH|done].
    + intros Hnil. by rewrite (collect_items_none _ _ _ Hnil) in Hc.
Qed.

(** ** C8: completing an order *)

(** C8. When no queued order carries the order number,
    [complete_order_item] returns False and leaves the state as it was.
    When one does, it returns True and, whatever product code was passed,
    sets the status of the first such order in the queue to COMPLETE and
    its [completed_at] to the current time; nothing else changes. *)
Theorem complete_order_item_correct n c e s :
  ((∀ r o, r ∈ orders_queue s → objects s !! r = Some o →
           Order.order_number o ≠ n) →
   complete_order_item n c e s = (Ok false, s))
  ∧ ((∃ r o, r ∈ orders_queue s ∧ objects s !! r = Some o
             ∧ Order.order_number o = n) →
     ∃ r o,
       r ∈ orders_queue s ∧ objects s !! r = Some o
       ∧ Order.order_number o = n
       ∧ complete_order_item n c e s
         = (Ok true,
            set_objects
              (<[r := Order.mk n (Order.items o) COMPLETE (Order.created_at o)
                        (Some (now_completed_at e))]> (objects s)) s)).
Proof.
  rewrite complete_order_item_spec. split.
  - intros Hnone%find_order_None. by rewrite Hnone.
  - intros (r & o & Hr & Ho & Hn).
    destruct (find_order _ _ _) as [r0|] eqn:Hfind.
    + apply find_order_Some in Hfind as (Hr0 & o0 & Ho0 & Hn0).
      exists r0, o0. rewrite Ho0. subst n.
      split; [done|]. split; [done|]. split; [done|].
      unfold completed, Order.set_completed_at, Order.set_status. simpl.
      by rewrite Hn0.
    + destruct (proj1 (find_order_None _ _ _) Hfind r o Hr Ho Hn).
Qed.

Lemma complete_order_item_correct_witness :
  (∀ r o, r ∈ orders_queue after_order → objects after_order !! r = Some o →
          Order.order_number o ≠ "ORD-does-not-exist")
  ∧ complete_order_item "ORD-does-not-exist" "P001" env_abc_1 after_order
    = (Ok false, after_order)
  ∧ (∃ r o, r ∈ orders_queue after_order ∧ objects after_order !! r = Some o
            ∧ Order.order_number o = "ORD04112026ABC")
  ∧ ∃ r o,
      r ∈ orders_queue after_order ∧ objects after_order !! r = Some o
      ∧ Order.order_number o = "ORD04112026ABC"
      ∧ complete_order_item "ORD04112026ABC" "D001" env_abc_1 after_order
        = (Ok true,
           set_objects
             (<[r := Order.mk "ORD04112026ABC" (Order.items o) COMPLETE
                       (Order.created_at o)
                       (Some (now_completed_at env_abc_1))]>
                (objects after_order)) after_order).
Proof.
  assert (∀ r o, r ∈ orders_queue after_order →
                 objects after_order !! r = Some o →
                 Order.order_number o ≠ "ORD-does-not-exist") as Hnone.
  { intros r o Hr%list_elem_of_singleton Ho. subst r.
    vm_compute in Ho. by injection Ho as <-. }
  assert (∃ r o, r ∈ orders_queue after_order
                 ∧ objects after_order !! r = Some o
                 ∧ Order.order_number o = "ORD04112026ABC") as Hsome.
  { exists 0. eexists. split; [apply list_elem_of_here|].
    split; [by vm_compute|done]. }
  split; [exact Hnone|]. split.
  - exact (proj1 (complete_order_item_correct "ORD-does-not-exist" "P001"
                    env_abc_1 after_order) Hnone).
  - split; [exact Hsome|].
    exact (proj2 (complete_order_item_correct "ORD04112026ABC" "D001"
                    env_abc_1 after_order) Hsome).
Defined.

(** ** C2: all-or-nothing dispatch *)

Lemma not_dispatchable_unstaffed s r o item product :
  objects s !! r = Some o → item ∈ Order.items o →
  dict_get (OrderItem.product_code item) (products s) = Some product →
  available_for s (Product.product_type product) = [] →
  dispatchable s r = false.
Proof.
  intros Ho Hitem Hp Hnone. unfold dispatchable. rewrite Ho.
  apply andb_false_iff. right. apply not_true_is_false. intros Hall.
  rewrite forallb_forall in Hall.
  specialize (Hall item (proj1 (list_elem_of_In _ _) Hitem)).
  unfold has_staff in Hall. rewrite Hp in Hall.
  unfold available_for in Hnone. by rewrite Hnone in Hall.
Qed.

(** C2. In a reachable state, take a queued order that is PLACED and has an
    item whose product type has no available staff.  Then [process_orders]
    returns without dispatching it: the order is still in the queue and the
    object is exactly what it was (so its status is still PLACED), whatever
    staff the other items have. *)
Theorem all_or_nothing_dispatch s e r o item product :
  reachable s →
  r ∈ orders_queue s → objects s !! r = Some o → Order.status o = PLACED →
  item ∈ Order.items o →
  dict_get (OrderItem.product_code item) (products s) = Some product →
  available_for s (Product.product_type product) = [] →
  ∃ l s',
    process_orders e s = (Ok l, s')
    ∧ (r ∉ l) ∧ r ∈ orders_queue s' ∧ objects s' !! r = Some o
    ∧ (Order.status <$> objects s' !! r) = Some PLACED.
Proof.
  intros Hs%reachable_wf Hr Ho Hst Hitem Hp Hnone.
  pose proof (not_dispatchable_unstaffed s r o item product Ho Hitem Hp Hnone)
    as Hd.
  destruct (process_orders_spec e s Hs) as (s' & Hrun & _ & Hpass).
  assert (r ∉ List.filter (dispatchable s) (orders_queue s)) as HrD.
  { rewrite elem_of_List_filter. intros [? _]. congruence. }
  assert (objects s' !! r = Some o) as Ho'.
  { rewrite (pass_objects _ _ _ Hpass). by rewrite bool_decide_false. }
  eexists _, s'. split; [exact Hrun|]. split; [done|]. split.
  - rewrite (pass_result_queue _ _ Hpass). apply elem_of_List_filter.
    by rewrite Hd.
  - split; [done|]. by rewrite Ho', <- Hst.
Qed.

Lemma all_or_nothing_dispatch_witness :
  reachable half_staffed
  ∧ 0 ∈ orders_queue half_staffed
  ∧ objects half_staffed !! 0 = Some pizza_and_sandwich_order
  ∧ Order.status pizza_and_sandwich_order = PLACED
  ∧ sandwich_item ∈ Order.items pizza_and_sandwich_order
  ∧ dict_get (OrderItem.product_code sandwich_item) (products half_staffed)
    = Some veg_sandwich
  ∧ available_for half_staffed (Product.product_type veg_sandwich) = []
  ∧ available_for half_staffed VEG_PIZZA = ["S001"]
  ∧ ∃ l s',
      process_orders env_abc_1 half_staffed = (Ok l, s')
      ∧ (0 ∉ l) ∧ 0 ∈ orders_queue s'
      ∧ objects s' !! 0 = Some pizza_and_sandwich_order
      ∧ (Order.status <$> objects s' !! 0) = Some PLACED.
Proof.
  assert (0 ∈ orders_queue half_staffed) as Hq
    by (vm_compute; apply list_elem_of_here).
  assert (sandwich_item ∈ Order.items pizza_and_sandwich_order) as Hi
    by apply list_elem_of_further, list_elem_of_here.
  split; [apply reachable_half_staffed|]. split; [exact Hq|].
  split; [by vm_compute|]. split; [done|]. split; [exact Hi|].
  split; [by vm_compute|]. split; [by vm_compute|]. split; [by vm_compute|].
  apply (all_or_nothing_dispatch half_staffed env_abc_1 0
           pizza_and_sandwich_order sandwich_item veg_sandwich
           reachable_half_staffed Hq);
    [by vm_compute|done|exact Hi|by vm_compute|by vm_compute].
Defined.

(** ** C4: a second pass finds nothing to do *)

Lemma second_pass_empty s s' :
  pass_result s s' (List.filter (dispatchable s) (orders_queue s)) →
  List.filter (dispatchable s') (orders_queue s') = [].
Proof.
  intros Hpass. apply List_filter_none. intros x Hx.
  rewrite (pass_result_queue _ _ Hpass) in Hx.
  apply elem_of_List_filter in Hx as [Hd%negb_true_iff Hx].
  rewrite <- Hd. unfold dispatchable.
  rewrite (pass_objects _ _ _ Hpass), (pass_products _ _ _ Hpass),
    (pass_mapping _ _ _ Hpass).
  rewrite bool_decide_false; [done|].
  rewrite elem_of_List_filter. intros [? _]. congruence.
Qed.

(** C4. In every reachable state, a call of [process_orders] returns, and a
    second call right after it returns the empty list and leaves the queue
    and every order as the first call left them. *)
Theorem dispatch_idempotent s e1 e2 :
  reachable s →
  ∃ l s1 s2,
    process_orders e1 s = (Ok l, s1)
    ∧ process_orders e2 s1 = (Ok [], s2)
    ∧ orders_queue s2 = orders_queue s1 ∧ objects s2 = objects s1.
Proof.
  intros Hs%reachable_wf.
  destruct (process_orders_spec e1 s Hs) as (s1 & Hrun1 & Hwf1 & Hpass1).
  destruct (process_orders_spec e2 s1 Hwf1) as (s2 & Hrun2 & _ & Hpass2).
  rewrite (second_pass_empty _ _ Hpass1) in Hrun2, Hpass2.
  eexists _, s1, s2. split; [exact Hrun1|]. split; [exact Hrun2|].
  destruct Hpass2 as [Hq Ho _ _ _ _]. split.
  - rewrite Hq. apply List_filter_all. intros x _.
    rewrite bool_decide_false; [done|apply not_elem_of_nil].
  - apply list_eq. intros x. rewrite Ho.
    rewrite bool_decide_false; [done|apply not_elem_of_nil].
Qed.

Lemma dispatch_idempotent_witness :
  reachable half_staffed
  ∧ ∃ l s1 s2,
      process_orders env_abc_1 half_staffed = (Ok l, s1)
      ∧ process_orders env_abc_2 s1 = (Ok [], s2)
      ∧ orders_queue s2 = orders_queue s1 ∧ objects s2 = objects s1.
Proof.
  split; [apply reachable_half_staffed|].
  apply (dispatch_idempotent half_staffed env_abc_1 env_abc_2),
    reachable_half_staffed.
Defined.

(** ** C7: dispatch keeps the queue order *)

Lemma sublist_List_filter {A} (f : A -> bool) (l : list A) :
  sublist (List.filter f l) l.
Proof.
  induction l as [|x l IH]; simpl; [constructor|].
  destruct (f x); by constructor.
Qed.

(** C7. In every reachable state [process_orders] returns the dispatchable
    orders of the queue in queue order, which are exactly the orders it
    moved from PLACED to WIP; the queue it leaves holds the other orders,
    in the order they had.  Both lists are sublists of the former queue. *)
Theorem dispatch_preserves_fifo s e :
  reachable s →
  ∃ s',
    process_orders e s
    = (Ok (List.filter (dispatchable s) (orders_queue s)), s')
    ∧ orders_queue s'
      = List.filter (fun r => negb (dispatchable s r)) (orders_queue s)
    ∧ sublist (List.filter (dispatchable s) (orders_queue s)) (orders_queue s)
    ∧ sublist (orders_queue s') (orders_queue s)
    ∧ ∀ r, r ∈ List.filter (dispatchable s) (orders_queue s)
           ↔ r ∈ orders_queue s
             ∧ ∃ o, objects s !! r = Some o ∧ Order.status o = PLACED
                    ∧ objects s' !! r = Some (Order.set_status WIP o).
Proof.
  intros Hs%reachable_wf.
  destruct (process_orders_spec e s Hs) as (s' & Hrun & _ & Hpass).
  exists s'. split; [exact Hrun|].
  pose proof (pass_result_queue _ _ Hpass) as Hq.
  split; [exact Hq|]. split; [apply sublist_List_filter|].
  split; [rewrite Hq; apply sublist_List_filter|].
  intros r. rewrite (pass_objects _ _ _ Hpass). split.
  - intros Hr. rewrite bool_decide_true by done.
    apply elem_of_List_filter in Hr as [Hd Hr]. split; [done|].
    unfold dispatchable in Hd. destruct (objects s !! r) as [o|]; [|done].
    apply andb_true_iff in Hd as [Hst%bool_decide_eq_true _]. by exists o.
  - intros (Hr & o & Ho & Hst & Ho'). rewrite Ho in Ho'.
    case_bool_decide as Hd; [done|].
    injection Ho' as Ho'. rewrite Ho' in Hst. done.
Qed.

Lemma dispatch_preserves_fifo_witness :
  reachable half_staffed
  ∧ ∃ s',
      process_orders env_abc_1 half_staffed
      = (Ok (List.filter (dispatchable half_staffed)
               (orders_queue half_staffed)), s')
      ∧ orders_queue s'
        = List.filter (fun r => negb (dispatchable half_staffed r))
            (orders_queue half_staffed)
      ∧ sublist (List.filter (dispatchable half_staffed)
                   (orders_queue half_staffed)) (orders_queue half_staffed)
      ∧ sublist (orders_queue s') (orders_queue half_staffed)
      ∧ ∀ r, r ∈ List.filter (dispatchable half_staffed)
                   (orders_queue half_staffed)
             ↔ r ∈ orders_queue half_staffed
               ∧ ∃ o, objects half_staffed !! r = Some o
                      ∧ Order.status o = PLACED
                      ∧ objects s' !! r = Some (Order.set_status WIP o).
Proof.
  split; [apply reachable_half_staffed|].
  apply (dispatch_preserves_fifo half_staffed env_abc_1),
    reachable_half_staffed.
Defined.

(** ** C5: order numbers *)

(** Only the day and the first three hexadecimal digits of the UUID reach
    the order number. *)
Lemma generated_order_number_ext e1 e2 :
  strftime_dmY (now_order_number e1) = strftime_dmY (now_order_number e2) →
  prefix_slice 3 (uuid4_hex e1) = prefix_slice 3 (uuid4_hex e2) →
  generated_order_number e1 = generated_order_number e2.
Proof. unfold generated_order_number. by intros -> ->. Qed.

(** C5 does not hold of the code.  Two orders placed on the same day, for
    which [uuid4] returned two different UUIDs with the same first three
    hexadecimal digits, both succeed and carry the same order number. *)
Theorem order_numbers_collide :
  uuid4_hex env_abc_1 ≠ uuid4_hex env_abc_2
  ∧ ∃ s1 s2,
      place_order one_pizza env_abc_1 WorkloadManagementSystem = (Ok 0, s1)
      ∧ place_order one_pizza env_abc_2 s1 = (Ok 1, s2)
      ∧ (Order.order_number <$> objects s2 !! 0) = Some "ORD04112026ABC"
      ∧ (Order.order_number <$> objects s2 !! 1) = Some "ORD04112026ABC".
Proof.
  split; [done|]. eexists _, _.
  split; [by vm_compute|]. split; [by vm_compute|]. by vm_compute.
Qed.

(** ** C10: orders in progress are not in the queue *)

(** In every reachable state no queued order is WIP. *)
Lemma queue_never_in_progress s r o :
  reachable s → r ∈ orders_queue s → objects s !! r = Some o →
  Order.status o ≠ WIP.
Proof. intros Hs%reachable_wf. by apply wf_queue_not_wip. Qed.

(** So [get_orders_by_status(OrderStatus.WIP)] always returns the empty
    list. *)
Lemma get_orders_in_progress_empty s e :
  reachable s → get_orders_by_status WIP e s = (Ok [], s).
Proof.
  intros Hs. unfold get_orders_by_status.
  erewrite (bind_Ok (gets objects)); [|reflexivity].
  erewrite (bind_Ok (gets orders_queue)); [|reflexivity].
  unfold mret, M_ret. f_equal. f_equal.
  apply List_filter_none. intros r Hr.
  destruct (objects s !! r) as [o|] eqn:Ho; [|done].
  apply bool_decide_eq_false. by apply (queue_never_in_progress s r).
Qed.

(** A dispatched order has left the queue when [process_orders] returns. *)
Lemma dispatched_order_leaves_queue s e r :
  reachable s →
  ∀ l s', process_orders e s = (Ok l, s') → r ∈ l → r ∉ orders_queue s'.
Proof.
  intros Hs%reachable_wf l s' Hrun Hr.
  destruct (process_orders_spec e s Hs) as (s1 & Hrun1 & _ & Hpass).
  rewrite Hrun in Hrun1. injection Hrun1 as -> ->.
  rewrite (pass_result_queue _ _ Hpass), elem_of_List_filter.
  apply elem_of_List_filter in Hr as [-> _]. by intros [? _].
Qed.

Lemma reachable_after_collision : reachable after_collision.
Proof. do 3 apply reachable_exec. apply reachable_after_order. Qed.

(** C10 does not hold of the code in its last part.  The first order is
    dispatched: it is WIP and out of the queue.  [complete_order_item],
    called with its order number, finds the second order, which carries the
    same number, returns True and completes that one; the dispatched order
    stays WIP. *)
Theorem dispatched_number_completes_other_order :
  reachable after_collision
  ∧ (Order.status <$> objects after_collision !! 0) = Some WIP
  ∧ (Order.order_number <$> objects after_collision !! 0)
    = Some "ORD04112026ABC"
  ∧ orders_queue after_collision = [1]
  ∧ get_orders_by_status WIP env_abc_1 after_collision = (Ok [], after_collision)
  ∧ ∃ s',
      complete_order_item "ORD04112026ABC" "P001" env_abc_1 after_collision
      = (Ok true, s')
      ∧ (Order.status <$> objects s' !! 0) = Some WIP
      ∧ (Order.status <$> objects s' !! 1) = Some COMPLETE.
Proof.
  split; [apply reachable_after_collision|].
  split; [by vm_compute|]. split; [by vm_compute|]. split; [by vm_compute|].
  split; [by vm_compute|]. eexists. split; [by vm_compute|].
  split; by vm_compute.
Qed.

(** * Further properties of the code *)

(** ** The staff registry: [staff_login] and [staff_logout] *)

Section DictAlter.
Context {K V : Type} `{EqDecision K}.
Implicit Types (d : dict K V) (k : K).

Lemma dict_alter_alter (f g : V -> V) k d :
  dict_alter f k (dict_alter g k d) = dict_alter (fun v => f (g v)) k d.
Proof.
  induction d as [|[k0 v0] d IH]; simpl; [done|].
  destruct (decide (k = k0)) as [->|Hne]; simpl.
  - by rewrite decide_True.
  - rewrite decide_False by done. by rewrite IH.
Qed.

Lemma dict_alter_fixed (f : V -> V) k d :
  (∀ v, dict_get k d = Some v → f v = v) → dict_alter f k d = d.
Proof.
  induction d as [|[k0 v0] d IH]; simpl; [done|].
  destruct (decide (k = k0)) as [->|Hne]; intros Hfix.
  - by rewrite Hfix.
  - by rewrite IH.
Qed.

Lemma dict_alter_missing (f : V -> V) k d :
  dict_get k d = None → dict_alter f k d = d.
Proof. intros Hk. apply dict_alter_fixed. intros v. by rewrite Hk. Qed.

Lemma dict_mem_alter (f : V -> V) k k' d :
  dict_mem k (dict_alter f k' d) = dict_mem k d.
Proof.
  unfold dict_mem. rewrite dict_get_alter.
  case_decide; [|done]. by destruct (dict_get k d).
Qed.

End DictAlter.

Lemma rebuild_mapping_set_staff d d' s :
  rebuild_mapping (set_staff_members d (rebuild_mapping (set_staff_members d' s)))
  = rebuild_mapping (set_staff_members d s).
Proof. done. Qed.

Lemma rebuild_mapping_wf s :
  wf s → rebuild_mapping (set_staff_members (staff_members s) s) = s.
Proof.
  intros Hwf. unfold rebuild_mapping, set_product_group_mapping. simpl.
  rewrite <- (wf_index s Hwf). by destruct s.
Qed.

(** An identifier that is not registered: both methods return False, leave
    the whole state as it was, and create no staff record. *)
Theorem login_unknown_staff staff_id e s :
  dict_get staff_id (staff_members s) = None →
  staff_login staff_id e s = (Ok false, s)
  ∧ staff_logout staff_id e s = (Ok false, s).
Proof.
  intros Hnone. unfold staff_login, staff_logout. rewrite !set_login_spec.
  unfold dict_mem. by rewrite Hnone.
Qed.

Lemma login_unknown_staff_witness :
  dict_get "S999" (staff_members after_order) = None
  ∧ staff_login "S999" env_abc_1 after_order = (Ok false, after_order)
  ∧ staff_logout "S999" env_abc_1 after_order = (Ok false, after_order).
Proof.
  split; [by vm_compute|].
  apply (login_unknown_staff "S999" env_abc_1 after_order). by vm_compute.
Defined.

(** A registered identifier: the method returns True and sets the flag of
    that staff member; every other staff member, the order of the registry,
    the names and skills, the orders, the queue, the catalog and the output
    are as before. *)
Theorem login_known_staff staff_id staff v e s :
  dict_get staff_id (staff_members s) = Some staff →
  ∃ s',
    set_login staff_id v e s = (Ok true, s')
    ∧ (staff_login staff_id e s = set_login staff_id true e s
       ∧ staff_logout staff_id e s = set_login staff_id false e s)
    ∧ dict_get staff_id (staff_members s')
      = Some (Staff.mk (Staff.id staff) (Staff.name staff)
                (Staff.skills staff) v)
    ∧ (∀ k, k ≠ staff_id →
            dict_get k (staff_members s') = dict_get k (staff_members s))
    ∧ dict_keys (staff_members s') = dict_keys (staff_members s)
    ∧ objects s' = objects s ∧ orders_queue s' = orders_queue s
    ∧ products s' = products s ∧ stdout s' = stdout s.
Proof.
  intros Hk. rewrite set_login_spec. unfold dict_mem. rewrite Hk.
  eexists. split; [done|]. split; [done|]. simpl.
  split; [by rewrite dict_get_alter, decide_True, Hk|].
  split; [|by rewrite dict_keys_alter].
  intros k Hne. by rewrite dict_get_alter, decide_False.
Qed.

Lemma login_known_staff_witness :
  dict_get "S004" (staff_members after_order)
  = Some (Staff.mk "S004" "Monica" [SANDWICH] false)
  ∧ ∃ s',
      set_login "S004" true env_abc_1 after_order = (Ok true, s')
      ∧ (staff_login "S004" env_abc_1 after_order
         = set_login "S004" true env_abc_1 after_order
         ∧ staff_logout "S004" env_abc_1 after_order
           = set_login "S004" false env_abc_1 after_order)
      ∧ dict_get "S004" (staff_members s')
        = Some (Staff.mk "S004" "Monica" [SANDWICH] true)
      ∧ (∀ k, k ≠ "S004" →
              dict_get k (staff_members s')
              = dict_get k (staff_members after_order))
      ∧ dict_keys (staff_members s') = dict_keys (staff_members after_order)
      ∧ objects s' = objects after_order
      ∧ orders_queue s' = orders_queue after_order
      ∧ products s' = products after_order ∧ stdout s' = stdout after_order.
Proof.
  split; [by vm_compute|].
  apply (login_known_staff "S004" (Staff.mk "S004" "Monica" [SANDWICH] false)
           true env_abc_1 after_order).
  by vm_compute.
Defined.

(** Logging in a staff member who is logged out and logging the same member
    out again brings a reachable state back to exactly what it was, index
    included. *)
Theorem login_logout_round_trip staff_id staff e1 e2 s :
  reachable s →
  dict_get staff_id (staff_members s) = Some staff →
  Staff.logged_in staff = false →
  snd (staff_logout staff_id e2 (snd (staff_login staff_id e1 s))) = s.
Proof.
  intros Hs%reachable_wf Hk Hout. unfold staff_login, staff_logout.
  rewrite (set_login_spec staff_id true). unfold dict_mem at 1. rewrite Hk.
  rewrite set_login_spec. simpl. rewrite dict_mem_alter.
  unfold dict_mem. rewrite Hk. simpl.
  rewrite rebuild_mapping_set_staff, dict_alter_alter.
  rewrite dict_alter_fixed; [by apply rebuild_mapping_wf|].
  intros st Hst. rewrite Hk in Hst. injection Hst as <-.
  destruct staff; simpl in *. by subst.
Qed.

Lemma login_logout_round_trip_witness :
  reachable after_order
  ∧ dict_get "S004" (staff_members after_order)
    = Some (Staff.mk "S004" "Monica" [SANDWICH] false)
  ∧ snd (staff_logout "S004" env_abc_2
           (snd (staff_login "S004" env_abc_1 after_order)))
    = after_order.
Proof.
  split; [apply reachable_after_order|]. split; [by vm_compute|].
  apply (login_logout_round_trip "S004"
           (Staff.mk "S004" "Monica" [SANDWICH] false));
    [apply reachable_after_order|by vm_compute|done].
Defined.

(** In a reachable state, logging out a staff member who is not logged in,
    or logging in one who is, returns True and changes nothing. *)
Theorem login_already_there staff_id staff e s :
  reachable s →
  dict_get staff_id (staff_members s) = Some staff →
  (Staff.logged_in staff = true → staff_login staff_id e s = (Ok true, s))
  ∧ (Staff.logged_in staff = false → staff_logout staff_id e s = (Ok true, s)).
Proof.
  intros Hs%reachable_wf Hk.
  assert (∀ v, Staff.logged_in staff = v → set_login staff_id v e s = (Ok true, s))
    as Hsame.
  { intros v Hv. rewrite set_login_spec. unfold dict_mem. rewrite Hk.
    rewrite dict_alter_fixed; [by rewrite rebuild_mapping_wf|].
    intros st Hst. rewrite Hk in Hst. injection Hst as <-.
    destruct staff; simpl in *. by subst. }
  split; apply Hsame.
Qed.

Lemma login_already_there_witness :
  reachable after_order
  ∧ dict_get "S004" (staff_members after_order)
    = Some (Staff.mk "S004" "Monica" [SANDWICH] false)
  ∧ staff_logout "S004" env_abc_1 after_order = (Ok true, after_order).
Proof.
  split; [apply reachable_after_order|]. split; [by vm_compute|].
  apply (login_already_there "S004"
           (Staff.mk "S004" "Monica" [SANDWICH] false) env_abc_1 after_order);
    [apply reachable_after_order|by vm_compute|done].
Defined.

(** In any state, a second [staff_login] (or [staff_logout]) of the same
    identifier leaves the state as the first one left it. *)
Theorem login_twice staff_id e1 e2 s :
  snd (staff_login staff_id e2 (snd (staff_login staff_id e1 s)))
  = snd (staff_login staff_id e1 s)
  ∧ snd (staff_logout staff_id e2 (snd (staff_logout staff_id e1 s)))
    = snd (staff_logout staff_id e1 s).
Proof.
  assert (∀ v, snd (set_login staff_id v e2 (snd (set_login staff_id v e1 s)))
               = snd (set_login staff_id v e1 s)) as Htwice.
  { intros v. rewrite (set_login_spec staff_id v e1 s).
    destruct (dict_mem staff_id (staff_members s)) eqn:Hmem; simpl.
    - rewrite set_login_spec. simpl. rewrite dict_mem_alter, Hmem. simpl.
      by rewrite rebuild_mapping_set_staff, dict_alter_alter.
    - rewrite set_login_spec. by rewrite Hmem. }
  split; apply Htwice.
Qed.

(** ** What no call changes *)

(** Where an order of the state after a call comes from: it was there
    before, with the same number, items and creation time, or it is the
    order that [place_order] just created. *)
Lemma exec_objects_origin c e s r o' :
  wf s → objects (exec c e s) !! r = Some o' →
  (∃ o, objects s !! r = Some o
        ∧ Order.order_number o' = Order.order_number o
        ∧ Order.items o' = Order.items o
        ∧ Order.created_at o' = Order.created_at o)
  ∨ (r = length (objects s)
     ∧ ∃ items l,
         c = PlaceOrder items
         ∧ collect_items (products s) items [] = Ok l ∧ l ≠ []
         ∧ o' = Order.mk (generated_order_number e) l PLACED
                  (now_created_at e) None).
Proof.
  intros Hwf. destruct c; simpl.
  - unfold staff_login. rewrite set_login_objects. intros Ho. left. by exists o'.
  - unfold staff_logout. rewrite set_login_objects. intros Ho. left. by exists o'.
  - rewrite place_order_spec.
    destruct (collect_items _ _ _) as [[|i l]|x] eqn:Hc; simpl;
      try (intros Ho; left; by exists o').
    intros [Ho|[Hlen Ho]]%lookup_app_Some; [left; by exists o'|].
    apply list_lookup_singleton_Some in Ho as [Hr <-].
    right. split; [lia|]. by exists items, (i :: l).
  - destruct (process_orders_spec e s Hwf) as (s' & -> & _ & Hpass). simpl.
    rewrite (pass_objects _ _ _ Hpass). left.
    destruct (objects s !! r) as [o|]; [|by case_bool_decide].
    exists o. split; [done|]. case_bool_decide; simpl in *; by simplify_eq.
  - rewrite complete_order_item_spec.
    destruct (find_order _ _ _) as [r0|] eqn:Hfind;
      [|intros Ho; left; by exists o'].
    apply find_order_Some in Hfind as (_ & o0 & Ho0 & _). rewrite Ho0. simpl.
    destruct (decide (r = r0)) as [->|Hne].
    + rewrite list_lookup_insert_eq by by eapply lookup_lt_Some.
      intros [= <-]. left. by exists o0.
    + rewrite list_lookup_insert_ne by done. intros Ho. left. by exists o'.
  - intros Ho. left. by exists o'.
  - intros Ho. left. by exists o'.
Qed.

Lemma exec_objects_valid c e s r :
  wf s → is_Some (objects s !! r) → is_Some (objects (exec c e s) !! r).
Proof.
  intros Hwf [o Ho]. destruct c; simpl.
  - unfold staff_login. rewrite set_login_objects. by exists o.
  - unfold staff_logout. rewrite set_login_objects. by exists o.
  - rewrite place_order_spec.
    destruct (collect_items _ _ _) as [[|i l]|x]; simpl; try by exists o.
    exists o. rewrite lookup_app_l; [done|]. by eapply lookup_lt_Some.
  - destruct (process_orders_spec e s Hwf) as (s' & -> & _ & Hpass). simpl.
    rewrite (pass_objects _ _ _ Hpass), Ho. by case_bool_decide.
  - rewrite complete_order_item_spec.
    destruct (find_order _ _ _) as [r0|] eqn:Hfind; [|by exists o].
    apply find_order_Some in Hfind as (_ & o0 & Ho0 & _). rewrite Ho0. simpl.
    apply lookup_lt_is_Some. rewrite length_insert. by eapply lookup_lt_Some.
  - by exists o.
  - by exists o.
Qed.

(** No call removes an order object or changes its order number, its items
    or its creation time: in a reachable state, a reference stays valid
    through every call, and those three fields are what they were. *)
Theorem order_fields_immutable s c e r o :
  reachable s → objects s !! r = Some o →
  ∃ o', objects (exec c e s) !! r = Some o'
    ∧ Order.order_number o' = Order.order_number o
    ∧ Order.items o' = Order.items o
    ∧ Order.created_at o' = Order.created_at o.
Proof.
  intros Hs Ho.
  destruct (exec_objects_valid c e s r (reachable_wf s Hs)) as [o' Ho'];
    [by exists o|].
  exists o'. split; [done|].
  destruct (exec_objects_origin c e s r o' (reachable_wf s Hs) Ho')
    as [(o1 & Ho1 & ?)|[Hr _]].
  - by simplify_eq.
  - apply lookup_lt_Some in Ho. lia.
Qed.

Lemma order_fields_immutable_witness :
  reachable after_order
  ∧ objects after_order !! 0
    = Some (Order.mk "ORD04112026ABC"
              [OrderItem.mk "P001" 2 [] (float_literal 5060920081257595 (-48))]
              PLACED example_clock None)
  ∧ ∃ o',
      objects (exec (CompleteOrderItem "ORD04112026ABC" "P001") env_abc_2
                 after_order) !! 0 = Some o'
      ∧ Order.order_number o' = "ORD04112026ABC"
      ∧ Order.items o'
        = [OrderItem.mk "P001" 2 [] (float_literal 5060920081257595 (-48))]
      ∧ Order.created_at o' = example_clock.
Proof.
  split; [apply reachable_after_order|]. split; [by vm_compute|].
  apply (order_fields_immutable after_order
           (CompleteOrderItem "ORD04112026ABC" "P001") env_abc_2 0
           (Order.mk "ORD04112026ABC"
              [OrderItem.mk "P001" 2 [] (float_literal 5060920081257595 (-48))]
              PLACED example_clock None));
    [apply reachable_after_order|by vm_compute].
Defined.

Lemma set_login_projection {A} (f : string * Staff.t -> A) staff_id v e s :
  (∀ k st, f (k, Staff.set_logged_in v st) = f (k, st)) →
  map f (staff_members (snd (set_login staff_id v e s)))
  = map f (staff_members s).
Proof.
  intros Hf. rewrite set_login_spec.
  destruct (dict_mem _ _); [|done]. simpl.
  induction (staff_members s) as [|[k st] d IH]; simpl; [done|].
  destruct (decide (staff_id = k)); simpl; [by rewrite Hf|by rewrite IH].
Qed.

Lemma reachable_catalog_registry s :
  reachable s →
  products s = products WorkloadManagementSystem
  ∧ map staff_identity (staff_members s)
    = map staff_identity (staff_members WorkloadManagementSystem).
Proof.
  induction 1 as [|c e s Hs [IHp IHs]]; [done|].
  pose proof (reachable_wf s Hs) as Hwf.
  split; [by rewrite exec_products|].
  rewrite <- IHs. destruct c; simpl; try done.
  - by apply set_login_projection.
  - by apply set_login_projection.
  - rewrite place_order_spec. by destruct (collect_items _ _ _) as [[|??]|?].
  - destruct (process_orders_spec e s Hwf) as (s' & -> & _ & Hpass). simpl.
    by rewrite (pass_staff _ _ _ Hpass).
  - rewrite complete_order_item_spec.
    destruct (find_order _ _ _); [|done]. by destruct (objects s !! _).
Qed.

(** The catalog and the registered staff are those of the sample data in
    every reachable state: no call adds, removes, renames or reorders a
    product or a staff member, or changes a skill set; only the logged_in
    flags move. *)
Theorem catalog_and_registry_fixed s :
  reachable s →
  products s = products WorkloadManagementSystem
  ∧ map staff_identity (staff_members s)
    = map staff_identity (staff_members WorkloadManagementSystem).
Proof. apply reachable_catalog_registry. Qed.

Lemma catalog_and_registry_fixed_witness :
  reachable after_collision
  ∧ products after_collision = products WorkloadManagementSystem
  ∧ map staff_identity (staff_members after_collision)
    = map staff_identity (staff_members WorkloadManagementSystem).
Proof.
  split; [apply reachable_after_collision|].
  apply (catalog_and_registry_fixed after_collision), reachable_after_collision.
Defined.

(** ** What every order holds *)

Lemma collect_items_priced catalog items : ∀ acc l,
  collect_items catalog items acc = Ok l →
  (∀ i, i ∈ acc → well_priced catalog i) →
  ∀ i, i ∈ l → well_priced catalog i.
Proof.
  induction items as [|item items IH]; intros acc l; simpl.
  - by intros [= ->].
  - destruct (req_product_code item) as [c|]; simpl; [|apply IH].
    destruct (dict_get c catalog) as [product|] eqn:Hc; simpl; [|apply IH].
    destruct (float_mul_int _ _) as [price|] eqn:Hmul; [|done].
    intros Hl Hacc. apply (IH _ _ Hl). intros i [Hi|Hi]%elem_of_app.
    + by apply Hacc.
    + apply list_elem_of_singleton in Hi as ->. by exists product.
Qed.

Lemma reachable_order_content s r o :
  reachable s → objects s !! r = Some o →
  Order.items o ≠ []
  ∧ ∀ item, item ∈ Order.items o → well_priced (products s) item.
Proof.
  intros Hs. revert r o.
  induction Hs as [|c e s Hs IH]; intros r o Ho.
  { apply lookup_lt_Some in Ho. simpl in Ho. lia. }
  pose proof (reachable_wf s Hs) as Hwf. rewrite exec_products by done.
  destruct (exec_objects_origin c e s r o Hwf Ho)
    as [(o0 & Ho0 & _ & -> & _)|(_ & items & l & _ & Hc & Hl & ->)].
  - by apply (IH r).
  - simpl. split; [done|]. apply (collect_items_priced _ _ _ _ Hc).
    intros i Hi. by apply elem_of_nil in Hi.
Qed.

(** In every reachable state every order, queued or not, has at least one
    item, and each item names a catalog product and carries as price the
    catalog price of that product times the item's quantity. *)
Theorem orders_never_empty s r o :
  reachable s → objects s !! r = Some o →
  Order.items o ≠ []
  ∧ ∀ item, item ∈ Order.items o → well_priced (products s) item.
Proof. apply reachable_order_content. Qed.

Lemma orders_never_empty_witness :
  reachable half_staffed
  ∧ objects half_staffed !! 0 = Some pizza_and_sandwich_order
  ∧ Order.items pizza_and_sandwich_order ≠ []
  ∧ ∀ item, item ∈ Order.items pizza_and_sandwich_order →
            well_priced (products half_staffed) item.
Proof.
  split; [apply reachable_half_staffed|]. split; [by vm_compute|].
  apply (orders_never_empty half_staffed 0 pizza_and_sandwich_order);
    [apply reachable_half_staffed|by vm_compute].
Defined.

(** ** Which orders a pass dispatches *)

Lemma has_staff_staffed s item :
  wf s →
  has_staff (products s) (product_group_mapping s) item = true
  ↔ staffed s item.
Proof.
  intros Hwf. unfold has_staff, staffed. rewrite (wf_index s Hwf).
  destruct (dict_get (OrderItem.product_code item) (products s)) as [product|];
    last first.
  { split; [done|]. by intros (? & ? & ? & ? & _). }
  pose proof (fun k => rebuilt_index_exact (staff_members s)
                (Product.product_type product) k (wf_staff_keys s Hwf)) as Hex.
  destruct (mapping_get _ _) as [|k l].
  - split; [done|]. intros (p & k & st & [= <-] & Hk & Hin & Hskill).
    assert (k ∈ (@nil string)) as Hnil by (apply Hex; by exists st).
    by apply elem_of_nil in Hnil.
  - split; [|done]. intros _.
    destruct (proj1 (Hex k) (list_elem_of_here _ _)) as (st & ? & ? & ?).
    by exists product, k, st.
Qed.

Lemma dispatchable_staffed s r o :
  wf s → objects s !! r = Some o →
  dispatchable s r = true
  ↔ Order.status o = PLACED ∧ ∀ item, item ∈ Order.items o → staffed s item.
Proof.
  intros Hwf Ho. unfold dispatchable. rewrite Ho.
  rewrite andb_true_iff, bool_decide_eq_true, forallb_forall.
  split; intros [Hst Hall]; (split; [done|]); intros item Hitem.
  - apply has_staff_staffed; [done|]. by apply Hall, list_elem_of_In.
  - apply has_staff_staffed; [done|]. by apply Hall, list_elem_of_In.
Qed.

(** The other half of all-or-nothing dispatch.  In a reachable state, a
    queued order that is PLACED and whose every item has a logged-in staff
    member with the skill for its product is dispatched by
    [process_orders]: it is returned, it leaves the queue, and its status is
    WIP, with every other field as before. *)
Theorem fully_staffed_order_dispatched s e r o :
  reachable s →
  r ∈ orders_queue s → objects s !! r = Some o → Order.status o = PLACED →
  (∀ item, item ∈ Order.items o → staffed s item) →
  ∃ l s',
    process_orders e s = (Ok l, s')
    ∧ r ∈ l ∧ (r ∉ orders_queue s')
    ∧ objects s' !! r
      = Some (Order.mk (Order.order_number o) (Order.items o) WIP
                (Order.created_at o) (Order.completed_at o)).
Proof.
  intros Hs%reachable_wf Hr Ho Hst Hall.
  assert (dispatchable s r = true) as Hd by by apply (dispatchable_staffed s r o).
  destruct (process_orders_spec e s Hs) as (s' & Hrun & _ & Hpass).
  assert (r ∈ List.filter (dispatchable s) (orders_queue s)) as HrD
    by by apply elem_of_List_filter.
  eexists _, s'. split; [exact Hrun|]. split; [done|]. split.
  - rewrite (pass_result_queue _ _ Hpass), elem_of_List_filter.
    rewrite Hd. by intros [? _].
  - rewrite (pass_objects _ _ _ Hpass), bool_decide_true, Ho by done. done.
Qed.

Lemma reachable_pizza_staffed : reachable pizza_staffed.
Proof. apply reachable_exec, reachable_after_order. Qed.

Lemma fully_staffed_order_dispatched_witness :
  reachable pizza_staffed
  ∧ 0 ∈ orders_queue pizza_staffed
  ∧ objects pizza_staffed !! 0 = Some pizza_order
  ∧ (∀ item, item ∈ Order.items pizza_order → staffed pizza_staffed item)
  ∧ ∃ l s',
      process_orders env_abc_1 pizza_staffed = (Ok l, s')
      ∧ 0 ∈ l ∧ (0 ∉ orders_queue s')
      ∧ objects s' !! 0
        = Some (Order.mk "ORD04112026ABC" (Order.items pizza_order) WIP
                  example_clock None).
Proof.
  assert (0 ∈ orders_queue pizza_staffed) as Hq
    by (vm_compute; apply list_elem_of_here).
  assert (∀ item, item ∈ Order.items pizza_order → staffed pizza_staffed item)
    as Hall.
  { intros item Hitem%list_elem_of_singleton. subst item.
    exists (Product.mk "P001" "Margherita Pizza"
              (float_literal 5060920081257595 (-49)) VEG_PIZZA),
           "S001", (Staff.mk "S001" "Chandler" [VEG_PIZZA; BURGER] true).
    split; [by vm_compute|]. split; [by vm_compute|]. split; [done|].
    apply list_elem_of_here. }
  split; [apply reachable_pizza_staffed|]. split; [exact Hq|].
  split; [by vm_compute|]. split; [exact Hall|].
  apply (fully_staffed_order_dispatched pizza_staffed env_abc_1 0 pizza_order
           reachable_pizza_staffed Hq);
    [by vm_compute|done|exact Hall].
Defined.

(** In a reachable state where no staff member is logged in,
    [process_orders] dispatches nothing: it returns the empty list and
    leaves the queue and every order as they were. *)
Theorem nobody_logged_in_nothing_dispatched s e :
  reachable s →
  (∀ k staff, dict_get k (staff_members s) = Some staff →
              Staff.logged_in staff = false) →
  ∃ s',
    process_orders e s = (Ok [], s')
    ∧ orders_queue s' = orders_queue s ∧ objects s' = objects s.
Proof.
  intros Hs Hout. pose proof (reachable_wf s Hs) as Hwf.
  destruct (process_orders_spec e s Hwf) as (s' & Hrun & _ & Hpass).
  assert (List.filter (dispatchable s) (orders_queue s) = []) as Hnone.
  { apply List_filter_none. intros r Hr. apply not_true_is_false. intros Hd.
    destruct (wf_queue_bound s Hwf r Hr) as [o Ho].
    destruct (proj1 (dispatchable_staffed s r o Hwf Ho) Hd) as [_ Hall].
    destruct (reachable_order_content s r o Hs Ho) as [Hne _].
    assert (∃ item, item ∈ Order.items o) as [item Hitem].
    { destruct (Order.items o) as [|item items]; [done|].
      exists item. apply list_elem_of_here. }
    destruct (Hall item Hitem) as (_ & k & staff & _ & Hk & Hin & _).
    rewrite (Hout k staff Hk) in Hin. done. }
  rewrite Hnone in Hrun, Hpass. exists s'. split; [exact Hrun|].
  destruct Hpass as [Hq Ho _ _ _ _]. split.
  - rewrite Hq. apply List_filter_all. intros x _.
    rewrite bool_decide_false; [done|apply not_elem_of_nil].
  - apply list_eq. intros x. rewrite Ho.
    rewrite bool_decide_false; [done|apply not_elem_of_nil].
Qed.

Lemma nobody_logged_in_nothing_dispatched_witness :
  reachable after_order
  ∧ (∀ k staff, dict_get k (staff_members after_order) = Some staff →
                Staff.logged_in staff = false)
  ∧ ∃ s',
      process_orders env_abc_1 after_order = (Ok [], s')
      ∧ orders_queue s' = orders_queue after_order
      ∧ objects s' = objects after_order.
Proof.
  assert (∀ k staff, dict_get k (staff_members after_order) = Some staff →
                     Staff.logged_in staff = false) as Hout.
  { intros k staff. change (staff_members after_order)
      with (staff_members WorkloadManagementSystem). simpl.
    repeat (case_decide; [by intros [= <-]|]). done. }
  split; [apply reachable_after_order|]. split; [exact Hout|].
  apply (nobody_logged_in_nothing_dispatched after_order env_abc_1
           reachable_after_order Hout).
Defined.

(** ** What a pass prints *)

Lemma assign_items_stdout items e s :
  (∀ item, item ∈ items →
     is_Some (dict_get (OrderItem.product_code item) (products s))) →
  assign_items items e s
  = (Ok (forallb (has_staff (products s) (product_group_mapping s)) items),
     set_stdout
       (stdout s
        ++ match first_unmet (products s) (product_group_mapping s) items with
           | Some pt => ["No available staff for " +:+ ProductType_value pt]
           | None => []
           end) s).
Proof.
  induction items as [|item items IH]; intros Hknown.
  - simpl. by rewrite set_stdout_nil.
  - destruct (Hknown item) as [product Hp]; [apply list_elem_of_here|].
    simpl. unfold has_staff at 1. rewrite Hp.
    erewrite (bind_Ok (gets products)); [|reflexivity]. rewrite Hp.
    erewrite (bind_Ok (gets product_group_mapping)); [|reflexivity].
    destruct (mapping_get _ _) as [|k l]; simpl; [done|].
    apply IH. intros i Hi. apply Hknown. by apply list_elem_of_further.
Qed.

Lemma first_unmet_None catalog mapping items :
  (∀ item, item ∈ items →
     is_Some (dict_get (OrderItem.product_code item) catalog)) →
  first_unmet catalog mapping items = None
  ↔ forallb (has_staff catalog mapping) items = true.
Proof.
  induction items as [|item items IH]; intros Hknown; simpl; [done|].
  destruct (Hknown item) as [product Hp]; [apply list_elem_of_here|].
  unfold has_staff at 1. rewrite Hp.
  destruct (mapping_get _ _) as [|k l]; simpl; [done|].
  apply IH. intros i Hi. apply Hknown. by apply list_elem_of_further.
Qed.

Lemma flat_map_ext_elem_of {A B} (f g : A -> list B) (l : list A) :
  (∀ x, x ∈ l → f x = g x) → flat_map f l = flat_map g l.
Proof.
  induction l as [|x l IH]; simpl; intros Hfg; [done|].
  rewrite Hfg by apply list_elem_of_here. f_equal.
  apply IH. intros y Hy. apply Hfg. by apply list_elem_of_further.
Qed.

Lemma diagnostic_dispatched r o s x :
  x ≠ r → diagnostic (dispatched r o s) x = diagnostic s x.
Proof.
  intros Hne. unfold diagnostic, dispatched. simpl.
  by rewrite list_lookup_insert_ne.
Qed.

Lemma process_loop_stdout copy : ∀ processed e s,
  wf s → NoDup copy → (∀ r, r ∈ copy → r ∈ orders_queue s) →
  stdout (snd (process_loop copy processed e s))
  = stdout s ++ flat_map (diagnostic s) copy.
Proof.
  induction copy as [|r copy IH]; intros processed e s Hwf Hnd Hsub.
  { simpl. by rewrite app_nil_r. }
  apply NoDup_cons in Hnd as [Hr Hnd].
  assert (r ∈ orders_queue s) as Hin by apply Hsub, list_elem_of_here.
  assert (∀ y, y ∈ copy → y ∈ orders_queue s) as Hsub'.
  { intros y Hy. by apply Hsub, list_elem_of_further. }
  destruct (wf_queue_bound s Hwf r Hin) as [o Ho].
  cbn [process_loop flat_map]. unfold diagnostic at 1. rewrite Ho.
  erewrite (bind_Ok (deref r)); [|by apply deref_Some].
  destruct (decide (Order.status o ≠ PLACED)) as [Hst|Hst].
  { rewrite decide_False by done. simpl. by apply IH. }
  apply dec_stable in Hst. rewrite decide_True by done.
  erewrite (bind_Ok (assign_items _)); last first.
  { apply assign_items_stdout. exact (wf_known_items s Hwf r o Ho). }
  set (out := match first_unmet _ _ _ with Some _ => _ | None => _ end).
  set (s0 := set_stdout (stdout s ++ out) s).
  assert (wf s0) as Hwf0 by by apply wf_set_stdout.
  destruct (forallb _ (Order.items o)) eqn:Hall.
  - pose proof (dispatch_step r o e s0 Hwf0 Hin Ho) as Hstep.
    unfold mbind, M_bind in Hstep |- *.
    destruct (update_status r WIP e s0) as [[[]|x] s1]; [|done].
    destruct (queue_remove r e s1) as [[[]|x] s2]; [|done].
    injection Hstep as ->. fold process_loop.
    rewrite IH; [|by apply wf_dispatched|done|].
    + simpl. rewrite <- app_assoc. f_equal. f_equal.
      apply flat_map_ext_elem_of. intros x Hx.
      rewrite diagnostic_dispatched; [done|]. by intros ->.
    + intros y Hy. simpl. apply elem_of_List_filter. split.
      * rewrite bool_decide_false; [done|]. by intros ->.
      * by apply Hsub'.
  - rewrite IH by done. simpl. by rewrite <- app_assoc.
Qed.

(** In a reachable state [process_orders] prints, in queue order, one line
    for each PLACED order that it leaves in the queue, naming the product
    type of the first item without staff; it prints nothing for the orders
    it dispatches or that are not PLACED, and nothing else. *)
Theorem process_orders_diagnostics s e :
  reachable s →
  stdout (snd (process_orders e s))
  = stdout s ++ flat_map (diagnostic s) (orders_queue s)
  ∧ ∀ r o, r ∈ orders_queue s → objects s !! r = Some o →
      (diagnostic s r = []
       ↔ Order.status o ≠ PLACED ∨ dispatchable s r = true).
Proof.
  intros Hs%reachable_wf. split.
  - unfold process_orders.
    erewrite (bind_Ok (gets orders_queue)); [|reflexivity].
    apply process_loop_stdout; [done|apply Hs|done].
  - intros r o Hr Ho. unfold diagnostic, dispatchable. rewrite Ho.
    pose proof (first_unmet_None (products s) (product_group_mapping s)
                  (Order.items o) (wf_known_items s Hs r o Ho)) as Hnone.
    destruct (decide (Order.status o = PLACED)) as [Hst|Hst].
    + rewrite bool_decide_true by done. simpl. rewrite <- Hnone.
      destruct (first_unmet _ _ _); split; try done.
      * intros [?|?]; done.
      * by right.
    + split; [by left|done].
Qed.

Lemma process_orders_diagnostics_witness :
  reachable half_staffed
  ∧ flat_map (diagnostic half_staffed) (orders_queue half_staffed)
    = ["No available staff for Sandwich"]
  ∧ stdout (snd (process_orders env_abc_1 half_staffed))
    = stdout half_staffed
      ++ flat_map (diagnostic half_staffed) (orders_queue half_staffed)
  ∧ ∀ r o, r ∈ orders_queue half_staffed →
      objects half_staffed !! r = Some o →
      (diagnostic half_staffed r = []
       ↔ Order.status o ≠ PLACED ∨ dispatchable half_staffed r = true).
Proof.
  split; [apply reachable_half_staffed|]. split; [by vm_compute|].
  apply (process_orders_diagnostics half_staffed env_abc_1),
    reachable_half_staffed.
Defined.

(** ** Completion, again *)

Lemma find_order_insert store n queue r o o' :
  find_order store n queue = Some r → store !! r = Some o →
  Order.order_number o' = Order.order_number o →
  find_order (<[r := o']> store) n queue = Some r.
Proof.
  intros Hfind Hr Hnum.
  assert (r < length store) as Hlen by by eapply lookup_lt_Some.
  induction queue as [|x queue IH]; simpl in *; [done|].
  destruct (decide (x = r)) as [->|Hne].
  - rewrite list_lookup_insert_eq by done. rewrite Hr in Hfind.
    rewrite Hnum. destruct (decide (Order.order_number o = n)); [done|].
    by apply IH.
  - rewrite list_lookup_insert_ne by done.
    destruct (store !! x) as [ox|]; [|by apply IH].
    destruct (decide (Order.order_number ox = n)); [done|by apply IH].
Qed.

(** Completing the same order number twice: the second call returns what
    the first returned, and the state is as if only the second call had been
    made, so the second call overwrites [completed_at].  Completion never
    touches the queue: a completed order stays queued. *)
Theorem completion_restamps n c1 c2 e1 e2 s :
  fst (complete_order_item n c2 e2 (snd (complete_order_item n c1 e1 s)))
  = fst (complete_order_item n c1 e1 s)
  ∧ snd (complete_order_item n c2 e2 (snd (complete_order_item n c1 e1 s)))
    = snd (complete_order_item n c2 e2 s)
  ∧ orders_queue (snd (complete_order_item n c1 e1 s)) = orders_queue s.
Proof.
  rewrite (complete_order_item_spec n c1 e1 s),
    (complete_order_item_spec n c2 e2 s).
  destruct (find_order (objects s) n (orders_queue s)) as [r|] eqn:Hfind.
  - pose proof Hfind as (_ & o & Ho & _)%find_order_Some. rewrite Ho.
    assert (r < length (objects s)) as Hlen by by eapply lookup_lt_Some.
    rewrite complete_order_item_spec. simpl.
    erewrite find_order_insert; [|done|done|done].
    rewrite list_lookup_insert_eq by done.
    split; [done|]. split; [|done].
    unfold completed. simpl. by rewrite list_insert_insert_eq.
  - simpl. rewrite complete_order_item_spec, Hfind. done.
Qed.

(** In a reachable state an order that is WIP is not in the queue, and no
    call changes it: neither [complete_order_item], which only looks in the
    queue, nor any other method ever moves an order out of WIP. *)
Theorem in_progress_is_final s c e r o :
  reachable s → objects s !! r = Some o → Order.status o = WIP →
  (r ∉ orders_queue s) ∧ objects (exec c e s) !! r = Some o.
Proof.
  intros Hs%reachable_wf Ho Hst.
  assert (r ∉ orders_queue s) as Hr.
  { intros Hr. by destruct (wf_queue_not_wip s Hs r o Hr Ho). }
  split; [done|]. destruct c; simpl.
  - unfold staff_login. by rewrite set_login_objects.
  - unfold staff_logout. by rewrite set_login_objects.
  - rewrite place_order_spec.
    destruct (collect_items _ _ _) as [[|i l]|x]; simpl; try done.
    rewrite lookup_app_l; [done|]. by eapply lookup_lt_Some.
  - destruct (process_orders_spec e s Hs) as (s' & -> & _ & Hpass). simpl.
    rewrite (pass_objects _ _ _ Hpass), bool_decide_false; [done|].
    rewrite elem_of_List_filter. tauto.
  - rewrite complete_order_item_spec.
    destruct (find_order _ _ _) as [r0|] eqn:Hfind; [|done].
    apply find_order_Some in Hfind as (Hr0 & o0 & Ho0 & _). rewrite Ho0. simpl.
    rewrite list_lookup_insert_ne; [done|]. by intros ->.
  - done.
  - done.
Qed.

Lemma reachable_pizza_in_progress : reachable pizza_in_progress.
Proof. apply reachable_exec, reachable_pizza_staffed. Qed.

Lemma in_progress_is_final_witness :
  reachable pizza_in_progress
  ∧ objects pizza_in_progress !! 0 = Some (Order.set_status WIP pizza_order)
  ∧ (0 ∉ orders_queue pizza_in_progress)
  ∧ objects (exec (CompleteOrderItem "ORD04112026ABC" "P001") env_abc_2
               pizza_in_progress) !! 0
    = Some (Order.set_status WIP pizza_order).
Proof.
  split; [apply reachable_pizza_in_progress|]. split; [by vm_compute|].
  apply (in_progress_is_final pizza_in_progress
           (CompleteOrderItem "ORD04112026ABC" "P001") env_abc_2 0
           (Order.set_status WIP pizza_order));
    [apply reachable_pizza_in_progress|by vm_compute|done].
Defined.

(** In a reachable state a queued order that is COMPLETE stays in the queue
    and stays COMPLETE through every call: nothing ever removes a completed
    order from [orders_queue]. *)
Theorem completed_orders_stay_queued s c e r o :
  reachable s →
  r ∈ orders_queue s → objects s !! r = Some o → Order.status o = COMPLETE →
  r ∈ orders_queue (exec c e s)
  ∧ ∃ o', objects (exec c e s) !! r = Some o' ∧ Order.status o' = COMPLETE.
Proof.
  intros Hs%reachable_wf Hr Ho Hst. destruct c; simpl.
  - unfold staff_login. rewrite set_login_spec.
    destruct (dict_mem _ _); simpl; eauto.
  - unfold staff_logout. rewrite set_login_spec.
    destruct (dict_mem _ _); simpl; eauto.
  - rewrite place_order_spec.
    destruct (collect_items _ _ _) as [[|i l]|x]; simpl; eauto.
    split; [apply elem_of_app; by left|]. exists o.
    rewrite lookup_app_l; [done|]. by eapply lookup_lt_Some.
  - destruct (process_orders_spec e s Hs) as (s' & -> & _ & Hpass). simpl.
    assert (dispatchable s r = false) as Hd.
    { unfold dispatchable. rewrite Ho, Hst. done. }
    split.
    + rewrite (pass_result_queue _ _ Hpass), elem_of_List_filter.
      by rewrite Hd.
    + exists o. rewrite (pass_objects _ _ _ Hpass), bool_decide_false; [done|].
      rewrite elem_of_List_filter. intros [? _]. congruence.
  - rewrite complete_order_item_spec.
    destruct (find_order _ _ _) as [r0|] eqn:Hfind; [|eauto].
    apply find_order_Some in Hfind as (Hr0 & o0 & Ho0 & _). rewrite Ho0. simpl.
    split; [done|]. destruct (decide (r = r0)) as [->|Hne].
    + rewrite list_lookup_insert_eq by by eapply lookup_lt_Some. eauto.
    + rewrite list_lookup_insert_ne by done. eauto.
  - eauto.
  - eauto.
Qed.

Lemma reachable_pizza_completed : reachable pizza_completed.
Proof. apply reachable_exec, reachable_after_order. Qed.

Lemma completed_orders_stay_queued_witness :
  reachable pizza_completed
  ∧ 0 ∈ orders_queue pizza_completed
  ∧ objects pizza_completed !! 0
    = Some (Order.mk "ORD04112026ABC" (Order.items pizza_order) COMPLETE
              example_clock (Some example_clock))
  ∧ 0 ∈ orders_queue
          (exec ProcessOrders env_abc_1
             (exec (StaffLogin "S001") env_abc_1 pizza_completed)).
Proof.
  assert (0 ∈ orders_queue pizza_completed) as Hq
    by (vm_compute; apply list_elem_of_here).
  split; [apply reachable_pizza_completed|]. split; [exact Hq|].
  split; [by vm_compute|].
  assert (reachable (exec (StaffLogin "S001") env_abc_1 pizza_completed))
    as Hreach by apply reachable_exec, reachable_pizza_completed.
  apply (completed_orders_stay_queued
           (exec (StaffLogin "S001") env_abc_1 pizza_completed)
           ProcessOrders env_abc_1 0
           (Order.mk "ORD04112026ABC" (Order.items pizza_order) COMPLETE
              example_clock (Some example_clock)) Hreach);
    [vm_compute; apply list_elem_of_here|by vm_compute|done].
Defined.

(** In a reachable state, once [process_orders] has dispatched an order,
    [complete_order_item] called with its order number returns False and
    changes nothing, provided no other queued order carried that number. *)
Theorem dispatched_order_cannot_complete s e e' c r o l s' :
  reachable s →
  process_orders e s = (Ok l, s') → r ∈ l → objects s !! r = Some o →
  (∀ r' o', r' ∈ orders_queue s → objects s !! r' = Some o' →
            Order.order_number o' = Order.order_number o → r' = r) →
  complete_order_item (Order.order_number o) c e' s' = (Ok false, s').
Proof.
  intros Hs%reachable_wf Hrun Hr Ho Huniq.
  destruct (process_orders_spec e s Hs) as (s1 & Hrun1 & _ & Hpass).
  rewrite Hrun in Hrun1. injection Hrun1 as Hl Hs1. subst l s1.
  rewrite complete_order_item_spec.
  assert (find_order (objects s') (Order.order_number o) (orders_queue s')
          = None) as ->; [|done].
  apply find_order_None. intros r' o' Hr' Ho' Hnum.
  rewrite (pass_result_queue _ _ Hpass) in Hr'.
  apply elem_of_List_filter in Hr' as [Hd%negb_true_iff Hr'].
  rewrite (pass_objects _ _ _ Hpass), bool_decide_false in Ho'; last first.
  { rewrite elem_of_List_filter. intros [? _]. congruence. }
  assert (r' = r) as -> by by eapply Huniq.
  apply elem_of_List_filter in Hr as [? _]. congruence.
Qed.

Lemma dispatched_order_cannot_complete_witness :
  reachable pizza_staffed
  ∧ process_orders env_abc_1 pizza_staffed = (Ok [0], pizza_in_progress)
  ∧ objects pizza_staffed !! 0 = Some pizza_order
  ∧ complete_order_item "ORD04112026ABC" "P001" env_abc_2 pizza_in_progress
    = (Ok false, pizza_in_progress).
Proof.
  split; [apply reachable_pizza_staffed|]. split; [by vm_compute|].
  split; [by vm_compute|].
  apply (dispatched_order_cannot_complete pizza_staffed env_abc_1 env_abc_2
           "P001" 0 pizza_order [0] pizza_in_progress reachable_pizza_staffed);
    [by vm_compute|apply list_elem_of_here|by vm_compute|].
  intros r' o' Hr' _ _. vm_compute in Hr'.
  by apply list_elem_of_singleton in Hr'.
Defined.

(** ** Placing an order, again *)

Lemma collect_items_result catalog items : ∀ acc,
  match collect_items catalog items acc with
  | Ok l =>
      ¬ Exists (overflows catalog) items
      ∧ l = acc ++ omap (build_item catalog) items
  | Raise x =>
      x = OverflowError "int too large to convert to float"
      ∧ Exists (overflows catalog) items
  end.
Proof.
  induction items as [|item items IH]; intros acc; simpl.
  { split; [by intros ?%Exists_nil|by rewrite app_nil_r]. }
  unfold build_item at 1.
  destruct (req_product_code item) as [c|] eqn:Hcode; simpl.
  - destruct (dict_get c catalog) as [product|] eqn:Hget; simpl.
    + unfold float_mul_int.
      destruct (float_of_int (default 1%Z (req_quantity item))) as [q|] eqn:Hq;
        simpl.
      * specialize (IH (acc ++
          [OrderItem.mk c (default 1%Z (req_quantity item))
             (default [] (req_toppings item))
             (SFmul float_prec float_emax (Product.price product) q)])).
        assert (¬ overflows catalog item) as Hno.
        { intros (c' & p' & Hc' & _ & Hq'). congruence. }
        destruct (collect_items _ _ _) as [l|x].
        -- destruct IH as [IH ->]. rewrite Exists_cons, <- app_assoc.
           split; [tauto|done].
        -- destruct IH as [-> IH]. split; [done|]. by apply Exists_cons_tl.
      * split; [done|]. apply Exists_cons_hd. by exists c, product.
    + specialize (IH acc).
      assert (¬ overflows catalog item) as Hno.
      { intros (c' & p' & Hc' & Hp' & _). congruence. }
      destruct (collect_items _ _ _) as [l|x].
      * destruct IH as [IH ->]. rewrite Exists_cons. split; [tauto|done].
      * destruct IH as [-> IH]. split; [done|]. by apply Exists_cons_tl.
  - specialize (IH acc).
    assert (¬ overflows catalog item) as Hno.
    { intros (c' & p' & Hc' & _). congruence. }
    destruct (collect_items _ _ _) as [l|x].
    + destruct IH as [IH ->]. rewrite Exists_cons. split; [tauto|done].
    + destruct IH as [-> IH]. split; [done|]. by apply Exists_cons_tl.
Qed.

(** [place_order] raises OverflowError exactly when some request names a
    catalog product with a quantity too large to convert to [float]; it
    then leaves the state unchanged, whatever the other requests are.  It
    raises nothing but ValueError and OverflowError. *)
Theorem place_order_overflow items e s :
  ((∃ msg, fst (place_order items e s) = Raise (OverflowError msg))
   ↔ Exists (overflows (products s)) items)
  ∧ (Exists (overflows (products s)) items →
     snd (place_order items e s) = s)
  ∧ (∀ x, fst (place_order items e s) = Raise x →
          (∃ msg, x = ValueError msg) ∨ (∃ msg, x = OverflowError msg)).
Proof.
  rewrite place_order_spec.
  pose proof (collect_items_result (products s) items []) as Hres.
  destruct (collect_items _ _ _) as [l|x].
  - destruct Hres as [Hno _]. split; [|split].
    + split; [|done]. destruct l; by intros [? ?].
    + done.
    + destruct l; simpl; [|done]. intros x [= <-]. left. by eexists.
  - destruct Hres as [-> Hex]. simpl. split; [|split].
    + split; [done|]. intros _. by eexists.
    + done.
    + intros x [= <-]. right. by eexists.
Qed.

Lemma place_order_overflow_witness :
  Exists (overflows (products after_order)) huge_quantity
  ∧ place_order huge_quantity env_abc_2 after_order
    = (Raise (OverflowError "int too large to convert to float"), after_order)
  ∧ snd (place_order huge_quantity env_abc_2 after_order) = after_order.
Proof.
  assert (Exists (overflows (products after_order)) huge_quantity) as Hex.
  { apply Exists_cons_tl, Exists_cons_hd.
    exists "P001", (Product.mk "P001" "Margherita Pizza"
                      (float_literal 5060920081257595 (-49)) VEG_PIZZA).
    split; [done|]. split; by vm_compute. }
  split; [exact Hex|]. split; [by vm_compute|].
  exact (proj1 (proj2 (place_order_overflow huge_quantity env_abc_2 after_order))
           Hex).
Defined.

(** When [place_order] returns in a reachable state, it has created one new
    order object under a reference that was not in use, left every other
    object alone, and appended the reference to the queue.  The new order is
    PLACED, has no completion time, carries the composed order number and
    the creation time read from the clock, and holds one item per request
    that names a catalog product, in request order, with quantity 1 and no
    toppings where the request gives none, and the price of the product
    times the quantity.  Staff, catalog, index and output are untouched. *)
Theorem place_order_creates items e s r s' :
  reachable s → place_order items e s = (Ok r, s') →
  r = length (objects s) ∧ (r ∉ orders_queue s)
  ∧ objects s'
    = objects s
      ++ [Order.mk
            ("ORD" +:+ strftime_dmY (now_order_number e)
                   +:+ upper (prefix_slice 3 (uuid4_hex e)))
            (omap (build_item (products s)) items) PLACED
            (now_created_at e) None]
  ∧ orders_queue s' = orders_queue s ++ [r]
  ∧ staff_members s' = staff_members s ∧ products s' = products s
  ∧ product_group_mapping s' = product_group_mapping s
  ∧ stdout s' = stdout s.
Proof.
  intros Hs%reachable_wf. rewrite place_order_spec.
  pose proof (collect_items_result (products s) items []) as Hres.
  destruct (collect_items _ _ _) as [[|i l]|x]; [done| |done].
  destruct Hres as [_ Hl]. simpl in Hl. rewrite Hl.
  intros [= <- <-]. split; [done|]. split; [|done].
  intros Hr. destruct (wf_queue_bound s Hs _ Hr) as [o Ho].
  apply lookup_lt_Some in Ho. lia.
Qed.

Lemma place_order_creates_witness :
  reachable after_order
  ∧ ∃ s',
      place_order sparse_request env_abc_2 after_order = (Ok 1, s')
      ∧ omap (build_item (products after_order)) sparse_request
        = [OrderItem.mk "D001" 1 [] (float_literal 8962163258467287 (-52))]
      ∧ 1 = length (objects after_order) ∧ (1 ∉ orders_queue after_order)
      ∧ objects s'
        = objects after_order
          ++ [Order.mk
                ("ORD" +:+ strftime_dmY (now_order_number env_abc_2)
                       +:+ upper (prefix_slice 3 (uuid4_hex env_abc_2)))
                (omap (build_item (products after_order)) sparse_request)
                PLACED (now_created_at env_abc_2) None]
      ∧ orders_queue s' = orders_queue after_order ++ [1]
      ∧ staff_members s' = staff_members after_order
      ∧ products s' = products after_order
      ∧ product_group_mapping s' = product_group_mapping after_order
      ∧ stdout s' = stdout after_order.
Proof.
  split; [apply reachable_after_order|].
  eexists. split; [by vm_compute|]. split; [by vm_compute|].
  apply (place_order_creates sparse_request env_abc_2 after_order 1);
    [apply reachable_after_order|by vm_compute].
Defined.

(** ** The two queries *)

Lemma get_orders_by_status_spec status e s :
  get_orders_by_status status e s
  = (Ok (List.filter
           (fun r =>
              match objects s !! r with
              | Some o => bool_decide (Order.status o = status)
              | None => false
              end) (orders_queue s)), s).
Proof.
  unfold get_orders_by_status.
  erewrite (bind_Ok (gets objects)); [|reflexivity].
  by erewrite (bind_Ok (gets orders_queue)); [|reflexivity].
Qed.

Lemma List_filter_length_split {A} (f g : A -> bool) (l : list A) :
  (∀ x, x ∈ l → f x = negb (g x)) →
  length (List.filter f l) + length (List.filter g l) = length l.
Proof.
  induction l as [|x l IH]; simpl; intros Hfg; [done|].
  rewrite Hfg by apply list_elem_of_here.
  assert (length (List.filter f l) + length (List.filter g l) = length l)
    as Hl.
  { apply IH. intros y Hy. apply Hfg. by apply list_elem_of_further. }
  destruct (g x); simpl; lia.
Qed.

(** In a reachable state [get_orders_by_status] changes nothing, and the
    queue splits into its PLACED and its COMPLETE orders: the WIP listing is
    empty, the other two listings keep the queue order, and every queued
    order is in exactly one of them. *)
Theorem orders_by_status_partition s e :
  reachable s →
  ∃ placed_orders completed_orders,
    get_orders_by_status PLACED e s = (Ok placed_orders, s)
    ∧ get_orders_by_status WIP e s = (Ok [], s)
    ∧ get_orders_by_status COMPLETE e s = (Ok completed_orders, s)
    ∧ sublist placed_orders (orders_queue s)
    ∧ sublist completed_orders (orders_queue s)
    ∧ (∀ r, r ∈ orders_queue s ↔ r ∈ placed_orders ∨ r ∈ completed_orders)
    ∧ (∀ r, ¬ (r ∈ placed_orders ∧ r ∈ completed_orders))
    ∧ length placed_orders + length completed_orders
      = length (orders_queue s).
Proof.
  intros Hs%reachable_wf. rewrite !get_orders_by_status_spec.
  eexists _, _. split; [done|]. split.
  { f_equal. f_equal. apply List_filter_none. intros r Hr.
    destruct (objects s !! r) as [o|] eqn:Ho; [|done].
    apply bool_decide_eq_false. by apply (wf_queue_not_wip s Hs r). }
  split; [done|]. split; [apply sublist_List_filter|].
  split; [apply sublist_List_filter|].
  assert (∀ r, r ∈ orders_queue s →
            ∃ o, objects s !! r = Some o
                 ∧ (Order.status o = PLACED ∨ Order.status o = COMPLETE))
    as Hcases.
  { intros r Hr. destruct (wf_queue_bound s Hs r Hr) as [o Ho].
    exists o. split; [done|].
    pose proof (wf_queue_not_wip s Hs r o Hr Ho).
    destruct (Order.status o); tauto. }
  split; [|split].
  - intros r. rewrite !elem_of_List_filter. split; [|tauto].
    intros Hr. destruct (Hcases r Hr) as (o & -> & [Hst|Hst]).
    + left. by rewrite bool_decide_true.
    + right. by rewrite bool_decide_true.
  - intros r. rewrite !elem_of_List_filter.
    intros [[Hp _] [Hc _]].
    destruct (objects s !! r) as [o|]; [|done].
    apply bool_decide_eq_true in Hp, Hc. congruence.
  - apply List_filter_length_split. intros r Hr.
    destruct (Hcases r Hr) as (o & -> & [Hst|Hst]); rewrite Hst; done.
Qed.

Lemma orders_by_status_partition_witness :
  reachable after_collision
  ∧ ∃ placed_orders completed_orders,
      get_orders_by_status PLACED env_abc_1 after_collision
      = (Ok placed_orders, after_collision)
      ∧ get_orders_by_status WIP env_abc_1 after_collision
        = (Ok [], after_collision)
      ∧ get_orders_by_status COMPLETE env_abc_1 after_collision
        = (Ok completed_orders, after_collision)
      ∧ sublist placed_orders (orders_queue after_collision)
      ∧ sublist completed_orders (orders_queue after_collision)
      ∧ (∀ r, r ∈ orders_queue after_collision
              ↔ r ∈ placed_orders ∨ r ∈ completed_orders)
      ∧ (∀ r, ¬ (r ∈ placed_orders ∧ r ∈ completed_orders))
      ∧ length placed_orders + length completed_orders
        = length (orders_queue after_collision).
Proof.
  split; [apply reachable_after_collision|].
  apply (orders_by_status_partition after_collision env_abc_1),
    reachable_after_collision.
Defined.

Lemma get_available_products_spec e s :
  get_available_products e s
  = (Ok (List.filter
           (fun product =>
              match dict_get (Product.product_type product)
                      (product_group_mapping s) with
              | Some (_ :: _) => true
              | _ => false
              end) (dict_values (products s))), s).
Proof.
  unfold get_available_products.
  erewrite (bind_Ok (gets products)); [|reflexivity].
  by erewrite (bind_Ok (gets product_group_mapping)); [|reflexivity].
Qed.

(** In a reachable state [get_available_products] changes nothing and
    returns, in catalog order, exactly the products that some logged-in
    staff member can handle ([can_handle_product]). *)
Theorem available_products_exact s e :
  reachable s →
  ∃ available,
    get_available_products e s = (Ok available, s)
    ∧ sublist available (dict_values (products s))
    ∧ ∀ product,
        product ∈ available
        ↔ product ∈ dict_values (products s)
          ∧ ∃ staff_id staff,
              dict_get staff_id (staff_members s) = Some staff
              ∧ Staff.logged_in staff = true
              ∧ Staff.can_handle_product staff (Product.product_type product)
                = true.
Proof.
  intros Hs%reachable_wf. rewrite get_available_products_spec.
  eexists. split; [done|]. split; [apply sublist_List_filter|].
  intros product. rewrite elem_of_List_filter.
  assert ((match dict_get (Product.product_type product)
                   (product_group_mapping s) with
           | Some (_ :: _) => true
           | _ => false
           end = true)
          ↔ ∃ staff_id staff,
              dict_get staff_id (staff_members s) = Some staff
              ∧ Staff.logged_in staff = true
              ∧ Staff.can_handle_product staff (Product.product_type product)
                = true) as Hiff; [|tauto].
  pose proof (fun k => rebuilt_index_exact (staff_members s)
                (Product.product_type product) k (wf_staff_keys s Hs)) as Hex.
  unfold mapping_get in Hex. rewrite <- (wf_index s Hs) in Hex.
  unfold Staff.can_handle_product.
  destruct (dict_get _ (product_group_mapping s)) as [[|k l]|]; simpl in Hex.
  - split; [done|]. intros (k & st & Hk & Hin & Hskill%bool_decide_eq_true).
    assert (k ∈ (@nil string)) as Hnil by (apply Hex; by exists st).
    by apply elem_of_nil in Hnil.
  - split; [|done]. intros _.
    destruct (proj1 (Hex k) (list_elem_of_here _ _)) as (st & ? & ? & ?).
    exists k, st. by rewrite bool_decide_eq_true.
  - split; [done|]. intros (k & st & Hk & Hin & Hskill%bool_decide_eq_true).
    assert (k ∈ (@nil string)) as Hnil by (apply Hex; by exists st).
    by apply elem_of_nil in Hnil.
Qed.

Lemma available_products_exact_witness :
  reachable half_staffed
  ∧ get_available_products env_abc_1 half_staffed
    = (Ok [Product.mk "P001" "Margherita Pizza"
             (float_literal 5060920081257595 (-49)) VEG_PIZZA;
           Product.mk "B001" "Cheeseburger"
             (float_literal 8995940255672566 (-50)) BURGER], half_staffed)
  ∧ ∃ available,
      get_available_products env_abc_1 half_staffed = (Ok available, half_staffed)
      ∧ sublist available (dict_values (products half_staffed))
      ∧ ∀ product,
          product ∈ available
          ↔ product ∈ dict_values (products half_staffed)
            ∧ ∃ staff_id staff,
                dict_get staff_id (staff_members half_staffed) = Some staff
                ∧ Staff.logged_in staff = true
                ∧ Staff.can_handle_product staff
                    (Product.product_type product) = true.
Proof.
  split; [apply reachable_half_staffed|]. split; [by vm_compute|].
  apply (available_products_exact half_staffed env_abc_1),
    reachable_half_staffed.
Defined.

(** ** The queue is ordered by creation *)

Lemma StronglySorted_List_filter {A} (R : relation A) (f : A -> bool)
    (l : list A) :
  StronglySorted R l → StronglySorted R (List.filter f l).
Proof.
  induction l as [|x l IH]; simpl; [done|].
  rewrite StronglySorted_cons. intros [Hx Hl].
  destruct (f x); [|by apply IH].
  apply StronglySorted_cons. split; [|by apply IH].
  apply Forall_forall. intros y [_ Hy]%elem_of_List_filter.
  by apply (proj1 (Forall_forall _ _) Hx).
Qed.

Lemma exec_queue_sorted c e s :
  wf s → StronglySorted lt (orders_queue s) →
  StronglySorted lt (orders_queue (exec c e s)).
Proof.
  intros Hwf Hsorted. destruct c; simpl.
  - unfold staff_login. rewrite set_login_spec. by destruct (dict_mem _ _).
  - unfold staff_logout. rewrite set_login_spec. by destruct (dict_mem _ _).
  - rewrite place_order_spec.
    destruct (collect_items _ _ _) as [[|i l]|x]; simpl; try done.
    apply StronglySorted_app. split; [|split; [done|]].
    + intros x y Hx Hy%list_elem_of_singleton. subst y.
      apply lookup_lt_is_Some. by apply Hwf.
    + repeat constructor.
  - destruct (process_orders_spec e s Hwf) as (s' & -> & _ & Hpass). simpl.
    rewrite (pass_result_queue _ _ Hpass).
    by apply StronglySorted_List_filter.
  - rewrite complete_order_item_spec.
    destruct (find_order _ _ _); [|done]. by destruct (objects s !! _).
  - done.
  - done.
Qed.

(** In every reachable state the references in [orders_queue] are strictly
    increasing.  References are handed out in creation order, so the queue
    always lists its orders from the oldest to the newest: [place_order]
    appends the newest, and no call reorders the rest. *)
Theorem queue_in_creation_order s :
  reachable s → StronglySorted lt (orders_queue s).
Proof.
  induction 1 as [|c e s Hs IH]; [constructor|].
  apply exec_queue_sorted; [by apply reachable_wf|done].
Qed.

Lemma queue_in_creation_order_witness :
  reachable after_collision ∧ StronglySorted lt (orders_queue after_collision).
Proof.
  split; [apply reachable_after_collision|].
  apply (queue_in_creation_order after_collision), reachable_after_collision.
Defined.

(** ** The index, entry by entry *)

Lemma mapping_get_append_staff C k skills : ∀ mapping,
  total mapping →
  mapping_get C (append_staff k skills mapping)
  = mapping_get C mapping
    ++ map (fun _ => k) (List.filter (fun skill => bool_decide (skill = C)) skills).
Proof.
  induction skills as [|skill skills IH]; intros mapping Ht; simpl.
  - by rewrite app_nil_r.
  - rewrite IH by by apply total_alter.
    rewrite mapping_get_alter_append by done.
    destruct (decide (C = skill)) as [->|Hne].
    + rewrite bool_decide_true by done. simpl. by rewrite <- app_assoc.
    + rewrite bool_decide_false; [done|]. by intros ->.
Qed.

Lemma List_filter_eq_NoDup {A} `{EqDecision A} (x : A) (l : list A) :
  NoDup l →
  List.filter (fun y => bool_decide (y = x)) l
  = if bool_decide (x ∈ l) then [x] else [].
Proof.
  induction 1 as [|y l Hy Hnd IH]; simpl; [done|].
  destruct (decide (y = x)) as [->|Hne].
  - rewrite bool_decide_true by done.
    rewrite (bool_decide_true (x ∈ x :: l)) by apply list_elem_of_here.
    f_equal. rewrite IH. by rewrite bool_decide_false.
  - rewrite bool_decide_false by done. rewrite IH.
    apply (f_equal (fun b : bool => if b then [x] else [])).
    apply bool_decide_ext. rewrite elem_of_cons.
    split; [by right|]. by intros [Heq|?]; [symmetry in Heq|].
Qed.

Lemma mapping_get_index_staff C members : ∀ mapping,
  total mapping →
  Forall (fun entry : string * Staff.t => NoDup (Staff.skills entry.2)) members →
  mapping_get C (index_staff members mapping)
  = mapping_get C mapping
    ++ map fst
         (List.filter
            (fun entry : string * Staff.t =>
               Staff.logged_in entry.2 && Staff.can_handle_product entry.2 C)
            members).
Proof.
  induction members as [|[k staff] members IH]; intros mapping Ht Hnd; simpl.
  - by rewrite app_nil_r.
  - apply Forall_cons in Hnd as [Hk Hnd]. simpl in Hk.
    destruct (Staff.logged_in staff); simpl.
    + rewrite IH by (by apply append_staff_total || done).
      rewrite mapping_get_append_staff by done.
      rewrite List_filter_eq_NoDup by done.
      unfold Staff.can_handle_product.
      destruct (bool_decide (C ∈ Staff.skills staff)); simpl.
      * by rewrite <- app_assoc.
      * by rewrite app_nil_r.
    + by apply IH.
Qed.

Lemma reachable_skills_NoDup s :
  reachable s →
  Forall (fun entry : string * Staff.t => NoDup (Staff.skills entry.2))
    (staff_members s).
Proof.
  intros [_ Hid]%reachable_catalog_registry.
  assert (Forall (fun i : string * string * string * list ProductType =>
                    NoDup i.2)
            (map staff_identity (staff_members s))) as Hall.
  { rewrite Hid. by apply (bool_decide_unpack _); vm_compute. }
  apply Forall_forall. intros entry Hentry.
  apply (proj1 (Forall_forall _ _) Hall (staff_identity entry)).
  apply list_elem_of_fmap. by exists entry.
Qed.

(** In every reachable state the index entry of a product type is the list
    of the keys of the staff members who are logged in and can handle that
    type, each once, in the order of the registry. *)
Theorem index_entry_in_registry_order s C :
  reachable s →
  available_for s C
  = map fst
      (List.filter
         (fun entry : string * Staff.t =>
            Staff.logged_in entry.2 && Staff.can_handle_product entry.2 C)
         (staff_members s)).
Proof.
  intros Hs. unfold available_for.
  rewrite (wf_index s (reachable_wf s Hs)).
  rewrite mapping_get_index_staff;
    [|apply empty_mapping_total|by apply reachable_skills_NoDup].
  by rewrite mapping_get_empty.
Qed.

Lemma reachable_three_logged_in : reachable three_logged_in.
Proof. do 3 apply reachable_exec. apply reachable_init. Qed.

Lemma index_entry_in_registry_order_witness :
  reachable three_logged_in
  ∧ available_for three_logged_in BURGER = ["S001"; "S002"]
  ∧ available_for three_logged_in BURGER
    = map fst
        (List.filter
           (fun entry : string * Staff.t =>
              Staff.logged_in entry.2
              && Staff.can_handle_product entry.2 BURGER)
           (staff_members three_logged_in)).
Proof.
  split; [apply reachable_three_logged_in|]. split; [by vm_compute|].
  apply (index_entry_in_registry_order three_logged_in BURGER),
    reachable_three_logged_in.
Defined.

(** ** When two order numbers are equal *)

Lemma digit_eq a b : digit a = digit b → a mod 10 = b mod 10.
Proof.
  unfold digit. intros Heq%(f_equal nat_of_ascii).
  pose proof (Nat.mod_upper_bound a 10). pose proof (Nat.mod_upper_bound b 10).
  rewrite !nat_ascii_embedding in Heq by lia. lia.
Qed.

Lemma String_inj c1 s1 c2 s2 : String c1 s1 = String c2 s2 → c1 = c2 ∧ s1 = s2.
Proof. by intros [= -> ->]. Qed.

Lemma two_digits_inj a b : a < 100 → b < 100 → two_digits a = two_digits b → a = b.
Proof.
  intros Ha Hb. unfold two_digits.
  intros [H1%digit_eq [H2%digit_eq _]%String_inj]%String_inj.
  pose proof (Nat.div_mod_eq a 10). pose proof (Nat.div_mod_eq b 10).
  assert (a / 10 < 10) by (apply Nat.Div0.div_lt_upper_bound; lia).
  assert (b / 10 < 10) by (apply Nat.Div0.div_lt_upper_bound; lia).
  rewrite !Nat.mod_small in H1 by lia. lia.
Qed.

Lemma four_digits_inj a b :
  a < 100 * 100 → b < 100 * 100 → four_digits a = four_digits b → a = b.
Proof.
  intros Ha Hb. unfold four_digits, two_digits.
  intros [H1%digit_eq [H2%digit_eq [H3%digit_eq [H4%digit_eq _]%String_inj
    ]%String_inj]%String_inj]%String_inj.
  assert (∀ n, n < 100 * 100 →
            n = 1000 * ((n / 1000) mod 10) + 100 * ((n / 100) mod 10)
                + 10 * ((n / 10) mod 10) + n mod 10) as Hexp.
  { intros n Hn.
    assert (n / 100 = n / 10 / 10) as ->
      by (rewrite Nat.Div0.div_div; reflexivity).
    assert (n / 1000 = n / 10 / 10 / 10) as ->
      by (rewrite !Nat.Div0.div_div; reflexivity).
    pose proof (Nat.div_mod_eq n 10) as E1.
    pose proof (Nat.div_mod_eq (n / 10) 10) as E2.
    pose proof (Nat.div_mod_eq (n / 10 / 10) 10) as E3.
    assert (n / 10 / 10 / 10 < 10) as Hq.
    { repeat apply Nat.Div0.div_lt_upper_bound. lia. }
    rewrite (Nat.mod_small (n / 10 / 10 / 10)) by exact Hq.
    set (q1 := n / 10) in *. set (q2 := q1 / 10) in *.
    set (q3 := q2 / 10) in *. set (a0 := n mod 10) in *.
    set (a1 := q1 mod 10) in *. set (a2 := q2 mod 10) in *.
    clearbody q1 q2 q3 a0 a1 a2. lia. }
  rewrite (Hexp a Ha), (Hexp b Hb). lia.
Qed.

Lemma string_app_inj (s1 s2 t1 t2 : string) :
  String.length s1 = String.length s2 →
  s1 +:+ t1 = s2 +:+ t2 → s1 = s2 ∧ t1 = t2.
Proof.
  revert s2. induction s1 as [|c s1 IH]; intros [|c2 s2]; simpl; try done.
  intros [= Hlen] [= -> Happ]. destruct (IH s2 Hlen Happ) as [-> ->]. done.
Qed.

Lemma strftime_dmY_inj t1 t2 :
  valid_date t1 → valid_date t2 →
  strftime_dmY t1 = strftime_dmY t2 →
  day t1 = day t2 ∧ month t1 = month t2 ∧ year t1 = year t2.
Proof.
  intros (Hy1 & Hm1 & Hd1) (Hy2 & Hm2 & Hd2). unfold strftime_dmY.
  intros [Hd [Hm Hy]%string_app_inj]%string_app_inj; [|done|done].
  split; [apply two_digits_inj; [lia|lia|done]|].
  split; [apply two_digits_inj; [lia|lia|done]|].
  apply four_digits_inj; [lia|lia|done].
Qed.

Lemma upper_ascii_inj c1 c2 :
  hex_digit c1 = true → hex_digit c2 = true →
  upper_ascii c1 = upper_ascii c2 → c1 = c2.
Proof.
  unfold hex_digit, upper_ascii. cbv zeta. intros H1 H2 Heq.
  pose proof (nat_ascii_bounded c1). pose proof (nat_ascii_bounded c2).
  rewrite <- (ascii_nat_embedding c1), <- (ascii_nat_embedding c2). f_equal.
  destruct ((97 <=? nat_of_ascii c1)%nat && (nat_of_ascii c1 <=? 122)%nat) eqn:E1,
           ((97 <=? nat_of_ascii c2)%nat && (nat_of_ascii c2 <=? 122)%nat) eqn:E2;
    apply (f_equal nat_of_ascii) in Heq;
    rewrite ?nat_ascii_embedding in Heq by lia;
    repeat match goal with
      | H : _ && _ = true |- _ => apply andb_true_iff in H as [? ?]
      | H : _ || _ = true |- _ => apply orb_true_iff in H as [?|?]
      | H : _ && _ = false |- _ => apply andb_false_iff in H as [?|?]
      | H : (_ <=? _)%nat = true |- _ => apply Nat.leb_le in H
      | H : (_ <=? _)%nat = false |- _ => apply Nat.leb_gt in H
      end; lia.
Qed.

Lemma upper_prefix_inj n : ∀ s1 s2,
  hex_digits s1 = true → hex_digits s2 = true →
  upper (prefix_slice n s1) = upper (prefix_slice n s2) →
  prefix_slice n s1 = prefix_slice n s2.
Proof.
  induction n as [|n IH]; intros [|c1 s1] [|c2 s2]; simpl; try done.
  intros [H1 Hs1]%andb_true_iff [H2 Hs2]%andb_true_iff [= Hc Hs].
  f_equal; [by apply upper_ascii_inj|by apply IH].
Qed.

Lemma strftime_dmY_length t : String.length (strftime_dmY t) = 8.
Proof. done. Qed.

(** Two orders that [place_order] has created carry the same order number
    exactly when they were placed on the same day and the two UUIDs have the
    same first three hexadecimal digits. *)
Theorem order_numbers_equal_iff items1 items2 e1 e2 s1 s2 r1 r2 s1' s2' o1 o2 :
  valid_date (now_order_number e1) → valid_date (now_order_number e2) →
  hex_digits (uuid4_hex e1) = true → hex_digits (uuid4_hex e2) = true →
  place_order items1 e1 s1 = (Ok r1, s1') → objects s1' !! r1 = Some o1 →
  place_order items2 e2 s2 = (Ok r2, s2') → objects s2' !! r2 = Some o2 →
  Order.order_number o1 = Order.order_number o2
  ↔ (day (now_order_number e1) = day (now_order_number e2)
     ∧ month (now_order_number e1) = month (now_order_number e2)
     ∧ year (now_order_number e1) = year (now_order_number e2))
    ∧ prefix_slice 3 (uuid4_hex e1) = prefix_slice 3 (uuid4_hex e2).
Proof.
  intros Hv1 Hv2 Hx1 Hx2 Hp1 Ho1 Hp2 Ho2.
  assert (∀ items e s r s' o,
            place_order items e s = (Ok r, s') → objects s' !! r = Some o →
            Order.order_number o = generated_order_number e) as Hnum.
  { intros items e s r s' o. rewrite place_order_spec.
    destruct (collect_items _ _ _) as [[|i l]|x]; [done| |done].
    intros [= <- <-]. simpl. rewrite list_lookup_middle by done.
    by intros [= <-]. }
  rewrite (Hnum _ _ _ _ _ _ Hp1 Ho1), (Hnum _ _ _ _ _ _ Hp2 Ho2).
  unfold generated_order_number. split.
  - intros [_ [Hdate Hhex]%string_app_inj]%string_app_inj; [|done|done].
    split; [by apply strftime_dmY_inj|by apply upper_prefix_inj].
  - intros [(Hd & Hm & Hy) Hhex]. unfold strftime_dmY.
    by rewrite Hd, Hm, Hy, Hhex.
Qed.

Lemma order_numbers_equal_iff_witness :
  valid_date (now_order_number env_abc_1)
  ∧ valid_date (now_order_number env_abc_2)
  ∧ hex_digits (uuid4_hex env_abc_1) = true
  ∧ hex_digits (uuid4_hex env_abc_2) = true
  ∧ place_order one_pizza env_abc_1 WorkloadManagementSystem
    = (Ok 0, after_order)
  ∧ objects after_order !! 0 = Some pizza_order
  ∧ place_order one_pizza env_abc_2 after_order = (Ok 1, two_orders)
  ∧ objects two_orders !! 1 = Some pizza_order
  ∧ (Order.order_number pizza_order = Order.order_number pizza_order
     ↔ (day (now_order_number env_abc_1) = day (now_order_number env_abc_2)
        ∧ month (now_order_number env_abc_1)
          = month (now_order_number env_abc_2)
        ∧ year (now_order_number env_abc_1)
          = year (now_order_number env_abc_2))
       ∧ prefix_slice 3 (uuid4_hex env_abc_1)
         = prefix_slice 3 (uuid4_hex env_abc_2)).
Proof.
  assert (valid_date example_clock) as Hv by (unfold valid_date; simpl; lia).
  split; [exact Hv|]. split; [exact Hv|].
  split; [by vm_compute|]. split; [by vm_compute|].
  split; [by vm_compute|]. split; [by vm_compute|].
  split; [by vm_compute|]. split; [by vm_compute|].
  apply (order_numbers_equal_iff one_pizza one_pizza env_abc_1 env_abc_2
           WorkloadManagementSystem after_order 0 1 after_order two_orders
           pizza_order pizza_order);
    [exact Hv|exact Hv|by vm_compute|by vm_compute
    |by vm_compute|by vm_compute|by vm_compute|by vm_compute].
Defined.

(** ** Placing, then dispatching *)

Lemma build_item_Some catalog request item :
  build_item catalog request = Some item →
  ∃ product,
    req_product_code request = Some (OrderItem.product_code item)
    ∧ dict_get (OrderItem.product_code item) catalog = Some product.
Proof.
  unfold build_item.
  destruct (req_product_code request) as [c|]; simpl; [|done].
  destruct (dict_get c catalog) as [product|] eqn:Hc; simpl; [|done].
  destruct (float_mul_int _ _); simpl; [|done].
  intros [= <-]. by exists product.
Qed.

(** In a reachable state, when every requested catalog product has a
    logged-in staff member with the skill for its type, the order that
    [place_order] returns is dispatched by the next [process_orders]: it is
    in the returned list, out of the queue, and WIP. *)
Theorem placed_order_dispatched_next items e e' s r s1 :
  reachable s → place_order items e s = (Ok r, s1) →
  (∀ request c product,
     request ∈ items → req_product_code request = Some c →
     dict_get c (products s) = Some product →
     ∃ staff_id staff,
       dict_get staff_id (staff_members s) = Some staff
       ∧ Staff.logged_in staff = true
       ∧ Product.product_type product ∈ Staff.skills staff) →
  ∃ l s2,
    process_orders e' s1 = (Ok l, s2)
    ∧ r ∈ l ∧ (r ∉ orders_queue s2)
    ∧ (Order.status <$> objects s2 !! r) = Some WIP.
Proof.
  intros Hs Hplace Hstaff.
  assert (wf s1) as Hwf1.
  { replace s1 with (exec (PlaceOrder items) e s) by (simpl; by rewrite Hplace).
    by apply wf_exec, reachable_wf. }
  revert Hplace. rewrite place_order_spec.
  pose proof (collect_items_result (products s) items []) as Hres.
  destruct (collect_items _ _ _) as [[|i l0]|x]; [done| |done].
  destruct Hres as [_ Hl]. simpl in Hl. rewrite Hl. intros [= <- <-].
  set (o := Order.mk (generated_order_number e)
              (omap (build_item (products s)) items) PLACED
              (now_created_at e) None).
  set (s1 := placed e (omap (build_item (products s)) items) s) in *.
  assert (objects s1 !! length (objects s) = Some o) as Ho
    by (simpl; by rewrite list_lookup_middle).
  assert (length (objects s) ∈ orders_queue s1) as Hr.
  { simpl. apply elem_of_app. right. apply list_elem_of_here. }
  assert (dispatchable s1 (length (objects s)) = true) as Hd.
  { apply (dispatchable_staffed s1 _ o Hwf1 Ho). split; [done|].
    intros item (request & Hreq & Hbuild)%list_elem_of_omap.
    destruct (build_item_Some _ _ _ Hbuild) as (product & Hcode & Hget).
    destruct (Hstaff request _ product Hreq Hcode Hget) as (k & st & ? & ? & ?).
    by exists product, k, st. }
  destruct (process_orders_spec e' s1 Hwf1) as (s2 & Hrun & _ & Hpass).
  assert (length (objects s) ∈ List.filter (dispatchable s1) (orders_queue s1))
    as HrD by by apply elem_of_List_filter.
  eexists _, s2. split; [exact Hrun|]. split; [done|]. split.
  - rewrite (pass_result_queue _ _ Hpass), elem_of_List_filter.
    rewrite Hd. by intros [? _].
  - rewrite (pass_objects _ _ _ Hpass), bool_decide_true, Ho by done. done.
Qed.

Lemma placed_order_dispatched_next_witness :
  reachable three_logged_in
  ∧ (∀ request c product,
       request ∈ pizza_and_sandwich → req_product_code request = Some c →
       dict_get c (products three_logged_in) = Some product →
       ∃ staff_id staff,
         dict_get staff_id (staff_members three_logged_in) = Some staff
         ∧ Staff.logged_in staff = true
         ∧ Product.product_type product ∈ Staff.skills staff)
  ∧ ∃ s1 l s2,
      place_order pizza_and_sandwich env_abc_1 three_logged_in = (Ok 0, s1)
      ∧ process_orders env_abc_2 s1 = (Ok l, s2)
      ∧ 0 ∈ l ∧ (0 ∉ orders_queue s2)
      ∧ (Order.status <$> objects s2 !! 0) = Some WIP.
Proof.
  assert (∀ request c product,
            request ∈ pizza_and_sandwich → req_product_code request = Some c →
            dict_get c (products three_logged_in) = Some product →
            ∃ staff_id staff,
              dict_get staff_id (staff_members three_logged_in) = Some staff
              ∧ Staff.logged_in staff = true
              ∧ Product.product_type product ∈ Staff.skills staff) as Hstaff.
  { intros request c product Hreq Hc Hp.
    exists "S002",
      (Staff.mk "S002" "Joey" [VEG_PIZZA; NV_PIZZA; SANDWICH; BURGER] true).
    split; [by vm_compute|]. split; [done|].
    apply elem_of_cons in Hreq as [->|Hreq%list_elem_of_singleton].
    - injection Hc as <-. vm_compute in Hp. injection Hp as <-.
      apply list_elem_of_here.
    - subst request. injection Hc as <-. vm_compute in Hp. injection Hp as <-.
      simpl. do 2 apply list_elem_of_further. apply list_elem_of_here. }
  split; [apply reachable_three_logged_in|]. split; [exact Hstaff|].
  exists (exec (PlaceOrder pizza_and_sandwich) env_abc_1 three_logged_in).
  destruct (placed_order_dispatched_next pizza_and_sandwich env_abc_1 env_abc_2
              three_logged_in 0
              (exec (PlaceOrder pizza_and_sandwich) env_abc_1 three_logged_in)
              reachable_three_logged_in) as (l & s2 & Hrun & Hrest);
    [by vm_compute|exact Hstaff|].
  exists l, s2. split; [by vm_compute|]. by split.
Defined.

(** ** The script at the end of the file *)

(** Whatever the date and the UUID, the script runs to its end without an
    exception, reports one processed order and no order in WIP status, and
    its last line shows the order still WIP: the order has left the queue,
    so the listing of WIP orders is empty and [complete_order_item] does
    not find it. *)
Theorem script_leaves_order_in_progress e :
  fst (main e WorkloadManagementSystem) = Ok tt
  ∧ stdout (snd (main e WorkloadManagementSystem))
    = [ "Available products:";
        "- Margherita Pizza"; "- Veg Sandwich"; "- Cheeseburger";
        newline +:+ "Placed order " +:+ generated_order_number e
                +:+ " with 2 items";
        newline +:+ "Processed 1 orders";
        newline +:+ "Orders in WIP status: 0";
        newline +:+ "Order " +:+ generated_order_number e
                +:+ " status: OrderStatus.WIP" ]
  ∧ orders_queue (snd (main e WorkloadManagementSystem)) = []
  ∧ (Order.status <$> objects (snd (main e WorkloadManagementSystem)) !! 0)
    = Some WIP
  ∧ (Order.completed_at <$> objects (snd (main e WorkloadManagementSystem)) !! 0)
    = Some None.
Proof.
  split; [by vm_compute|]. split; [by vm_compute|].
  split; [by vm_compute|]. split; by vm_compute.
Qed.
